(** * Workflow engine of the Linear TDD workflow system

  A shallow embedding of [scripts/workflow_engine.py] (class
  [WorkflowEngine]) and the properties of its execution model:
  definition validation, parameter substitution, conditional skipping,
  tool dispatch, step validation, phase retries and the life cycle of
  [WorkflowState].

  Conventions of the embedding.
  - Python [str] is [string]; text is modelled over the ASCII range, a
    character above 127 belongs to neither [\w] nor [\s].
  - The workflow document, its phases and its steps are YAML mappings
    read as structs: records whose optional keys are [option] fields,
    with values of the types the engine's handlers expect.  The value
    of [condition] is kept as it is parsed, a string or not, since the
    engine passes it to [re.sub] outside any [try].
  - [params], used as a map from names to values, is a [gmap string string]
    (the command line of [main] only produces string values).
  - Exceptions are values of [Exn]; a method that can raise returns a
    [Res].  Verbose printing and [duration_seconds] (a difference of two
    floating point clock readings) are left out.
  - Everything outside the interpreter (the file system, subprocesses,
    the clock, [eval]) is a [Host]. *)

From Stdlib Require Import String Ascii ZArith List Bool Lia DecimalString.
From stdpp Require Import gmap strings list.

Open Scope string_scope.
Open Scope Z_scope.

#[global] Arguments String.append !s1 s2 : simpl nomatch.

(** * Text *)

Module Text.

Definition code (c : ascii) : nat := nat_of_ascii c.

(** [\s] of a [str] pattern, on ASCII: TAB LF VT FF CR, FS GS RS US and
    the space; it is also the class [str.strip()] removes. *)
Definition is_space (c : ascii) : bool :=
  let n := code c in
  ((9 <=? n) && (n <=? 13) || (28 <=? n) && (n <=? 32))%nat.

(** [\w] on ASCII: letters, digits and the underscore. *)
Definition is_word (c : ascii) : bool :=
  let n := code c in
  ((48 <=? n) && (n <=? 57) || (65 <=? n) && (n <=? 90)
   || (97 <=? n) && (n <=? 122) || (n =? 95))%nat.

(** Longest prefix of characters in a class, and what follows it: the
    greedy [c*]. *)
Fixpoint span (f : ascii -> bool) (s : string) : string * string :=
  match s with
  | String c s' =>
      if f c then let '(a, b) := span f s' in (String c a, b) else ("", s)
  | "" => ("", "")
  end.

Fixpoint drop_while (f : ascii -> bool) (s : string) : string :=
  match s with
  | String c s' => if f c then drop_while f s' else s
  | "" => ""
  end.

Fixpoint rev_string (acc s : string) : string :=
  match s with
  | String c s' => rev_string (String c acc) s'
  | "" => acc
  end.

(** [str.strip()] *)
Definition strip (s : string) : string :=
  rev_string "" (drop_while is_space (rev_string "" (drop_while is_space s))).

Definition lower_char (c : ascii) : ascii :=
  let n := code c in
  if ((65 <=? n) && (n <=? 90))%nat then ascii_of_nat (n + 32) else c.

(** [str.lower()] *)
Fixpoint lower (s : string) : string :=
  match s with
  | String c s' => String (lower_char c) (lower s')
  | "" => ""
  end.

(** [sub in s] *)
Fixpoint contains (sub s : string) : bool :=
  String.prefix sub s
  || match s with
     | String _ s' => contains sub s'
     | "" => false
     end.

Fixpoint drop (n : nat) (s : string) : string :=
  match n, s with
  | S k, String _ s' => drop k s'
  | _, _ => s
  end.

Fixpoint all_chars (f : ascii -> bool) (s : string) : bool :=
  match s with
  | String c s' => f c && all_chars f s'
  | "" => true
  end.

(** The text does not start with a character of the class. *)
Definition head_outside (f : ascii -> bool) (s : string) : bool :=
  match s with
  | String c _ => negb (f c)
  | "" => true
  end.

(** The character does not occur in the text. *)
Definition has_no (sep : ascii) (s : string) : bool :=
  all_chars (fun c => negb (Ascii.eqb c sep)) s.

(** A parameter name that [\w+] matches whole. *)
Definition is_name (s : string) : bool :=
  all_chars is_word s && negb (String.eqb s "").

(** [str(n)] of a Python [int] *)
Definition str_int (z : Z) : string := NilZero.string_of_int (Z.to_int z).

(** [f"{x}"] of an [Optional[str]] and of an [Optional[int]] *)
Definition str_opt (o : option string) : string := default "None" o.
Definition str_opt_int (o : option Z) : string :=
  match o with Some z => str_int z | None => "None" end.

End Text.

(** * Parameter substitution: [re.sub(r'\{\{\s*(\w+)\s*\}\}', replace, text)] *)

Module Subst.
Import Text.

(** What [replace] reads of a match object. *)
Record Match := { group0 : string; group1 : string }.

(** A match of the pattern anchored at the head of [s].  The classes
    [\s], [\w] and the braces are pairwise disjoint, so the greedy
    choice for each star is the only one a backtracking matcher can
    succeed with. *)
Definition match_placeholder (s : string) : option Match :=
  match s with
  | String "{" (String "{" r) =>
      let '(ws1, r1) := span is_space r in
      let '(w, r2) := span is_word r1 in
      let '(ws2, r3) := span is_space r2 in
      match w, r3 with
      | String _ _, String "}" (String "}" _) =>
          Some {| group0 := "{{" +:+ ws1 +:+ w +:+ ws2 +:+ "}}"; group1 := w |}
      | _, _ => None
      end
  | _ => None
  end.

(** [re.sub]: leftmost matches, not overlapping; the search resumes
    behind each match, so text that [repl] returns is never scanned.
    [skip] counts the characters of the current match still to pass. *)
Fixpoint re_sub_from (repl : Match -> string) (skip : nat) (text : string) : string :=
  match text with
  | "" => ""
  | String c rest =>
      match skip with
      | S k => re_sub_from repl k rest
      | O =>
          match match_placeholder text with
          | Some m => repl m +:+ re_sub_from repl (String.length (group0 m) - 1) rest
          | None => String c (re_sub_from repl 0 rest)
          end
      end
  end.

Definition re_sub (repl : Match -> string) (text : string) : string :=
  re_sub_from repl 0 text.

(** The closure [replace] of [_substitute_params]. *)
Definition replace (params : gmap string string) (m : Match) : string :=
  let param_name := strip (group1 m) in
  default (group0 m) (params !! param_name).

Definition _substitute_params (text : string) (params : gmap string string) : string :=
  re_sub (replace params) text.

(** The parameter names of the placeholders [re.sub] finds in a text, in
    order. *)
Fixpoint placeholders_from (skip : nat) (text : string) : list string :=
  match text with
  | "" => []
  | String c rest =>
      match skip with
      | S k => placeholders_from k rest
      | O =>
          match match_placeholder text with
          | Some m =>
              strip (group1 m) :: placeholders_from (String.length (group0 m) - 1) rest
          | None => placeholders_from 0 rest
          end
      end
  end.

Definition placeholders (text : string) : list string := placeholders_from 0 text.

(** A placeholder for the parameter [k] is written at position [i] of a
    text: what the pattern describes, read off the text and not off the
    scan of [re.sub]. *)
Definition placeholder_at (text : string) (i : nat) (k : string) : Prop :=
  exists ws1 ws2 tail : string,
    drop i text = "{{" +:+ ws1 +:+ k +:+ ws2 +:+ "}}" +:+ tail
    /\ all_chars is_space ws1 = true
    /\ is_name k = true
    /\ all_chars is_space ws2 = true.

End Subst.

Import Text Subst.

(** * Data model *)

Module StepStatus.
Inductive t := PENDING | IN_PROGRESS | SUCCESS | FAILED | SKIPPED.
End StepStatus.

Module WorkflowStatus.
Inductive t := NOT_STARTED | RUNNING | COMPLETED | FAILED | PARTIAL.
End WorkflowStatus.

#[global] Instance StepStatus_eq_dec : EqDecision StepStatus.t.
Proof. solve_decision. Defined.

#[global] Instance WorkflowStatus_eq_dec : EqDecision WorkflowStatus.t.
Proof. solve_decision. Defined.

(** Exceptions: the class that is raised and [str(e)]. *)
Inductive ExnClass :=
  FileNotFoundError | ValueError | RuntimeError | KeyError | TypeError | OtherError.

Record Exn := { exn_class : ExnClass; exn_str : string }.

Inductive Res (A : Type) :=
| Ok (a : A)
| Raise (e : Exn).
Arguments Ok {A} a.
Arguments Raise {A} e.

(** [ExecutionResult]; [attempt] keeps its default in every constructor
    call of the engine. *)
Record ExecutionResult := {
  result_status : StepStatus.t;
  result_output : option string;
  result_error : option string;
  result_exit_code : option Z;
  result_attempt : Z
}.

Definition mkResult (status : StepStatus.t) (output error : option string)
    (exit_code : option Z) : ExecutionResult :=
  {| result_status := status; result_output := output; result_error := error;
     result_exit_code := exit_code; result_attempt := 1 |}.

(** The [params] mapping of a step, with the keys the handlers read. *)
Record StepParams := {
  sp_command : option string;
  sp_timeout : option Z;
  sp_file_path : option string;
  sp_content : option string;
  sp_pattern : option string;
  sp_path : option string
}.

Definition no_params : StepParams :=
  {| sp_command := None; sp_timeout := None; sp_file_path := None;
     sp_content := None; sp_pattern := None; sp_path := None |}.

(** The value under the key [condition]: a string, or a value of
    another type ([bool], [int], [NoneType], [list], ...), of which the
    engine only meets the name of the type. *)
Inductive Condition :=
| CondText (text : string)
| CondOther (type_name : string).

Record Step := {
  step_action : option string;
  step_name : option string;
  step_tool : option string;
  step_params : option StepParams;
  step_condition : option Condition;
  step_validation : option (list string)
}.

Record FailureAction := {
  fa_escalate_to : option string;
  fa_reason : option string
}.

Record Phase := {
  phase_name : option string;
  phase_description : option string;
  phase_max_attempts : option Z;
  phase_steps : option (list Step);
  phase_failure_actions : option (list FailureAction)
}.

Record InputSpec := { inputs_required : option (list string) }.

Record SuccessCriteria := { criteria_all_of : option (list string) }.

(** The parsed workflow document. *)
Record Workflow := {
  wf_name : option string;
  wf_description : option string;
  wf_type : option string;
  wf_inputs : option InputSpec;
  wf_phases : option (list Phase);
  wf_steps : option (list Step);
  wf_success_criteria : option SuccessCriteria
}.

(** A document without its [steps] key. *)
Definition without_steps (workflow : Workflow) : Workflow :=
  {| wf_name := wf_name workflow; wf_description := wf_description workflow;
     wf_type := wf_type workflow; wf_inputs := wf_inputs workflow;
     wf_phases := wf_phases workflow; wf_steps := None;
     wf_success_criteria := wf_success_criteria workflow |}.

(** * The host *)

(** What [subprocess.run] does: it returns a completed process, raises
    [TimeoutExpired], or raises something else. *)
Inductive RunOutcome :=
| Completed (returncode : Z) (stdout stderr : string)
| TimeoutExpired
| RunRaised (e : Exn).

Record Host := {
  World : Type;
  Time : Type;
  (** [time.time()] *)
  time_time : World -> Time;
  (** [str(self.workflow_dir / f"{workflow_name}.yaml")] *)
  workflow_path : string -> string;
  (** [workflow_path.exists()] *)
  path_exists : string -> World -> bool;
  (** [yaml.safe_load] of the opened file *)
  safe_load : string -> World -> Res Workflow;
  (** [subprocess.run(cmd, shell=True, capture_output=True, text=True,
      timeout=...)] *)
  subprocess_run : string -> option Z -> World -> RunOutcome * World;
  (** [open(path, 'r').read()] and [open(path, 'w').write(content)] *)
  read_file : string -> World -> Res string * World;
  write_file : string -> string -> World -> Res unit * World;
  (** [bool(eval(expr, {"__builtins__": {}}, params))], [None] when the
      evaluation raises; taken to be a function of its arguments. *)
  eval_bool : string -> gmap string string -> option bool
}.

(** [str(e)] of [subprocess.TimeoutExpired] *)
Definition str_TimeoutExpired (cmd : string) (timeout : option Z) : string :=
  "Command '" +:+ cmd +:+ "' timed out after " +:+ str_opt_int timeout +:+ " seconds".

(** * Workflow state *)

Section Engine.
Context (H : Host).

Record WorkflowState := {
  workflow_name : string;
  status : WorkflowStatus.t;
  start_time : option (Time H);
  end_time : option (Time H);
  current_phase : option string;
  steps_completed : list string;
  steps_failed : list string;
  outputs : gmap string string
}.

(** [WorkflowState(workflow_name=workflow_name)] *)
Definition new_state (name : string) : WorkflowState :=
  {| workflow_name := name; status := WorkflowStatus.NOT_STARTED;
     start_time := None; end_time := None; current_phase := None;
     steps_completed := []; steps_failed := []; outputs := ∅ |}.

(** What an observer of a run sees, in order: the status the engine's
    [WorkflowState] takes (when it is created and at each assignment) and
    the tool handlers that are called.  The trace is ghost state: the
    engine never reads it. *)
Inductive Event :=
| EvStatus (s : WorkflowStatus.t)
| EvTool (tool : string) (action : option string).

(** The engine while a workflow runs: [self.state], the host and the
    trace. *)
Record Machine := {
  m_state : WorkflowState;
  m_world : World H;
  m_trace : list Event
}.

Definition with_state (f : WorkflowState -> WorkflowState) (m : Machine) : Machine :=
  {| m_state := f (m_state m); m_world := m_world m; m_trace := m_trace m |}.

Definition with_world (w : World H) (m : Machine) : Machine :=
  {| m_state := m_state m; m_world := w; m_trace := m_trace m |}.

Definition emit (ev : Event) (m : Machine) : Machine :=
  {| m_state := m_state m; m_world := m_world m; m_trace := m_trace m ++ [ev] |}.

Definition set_status (s : WorkflowStatus.t) (m : Machine) : Machine :=
  emit (EvStatus s)
    (with_state (fun st =>
       {| workflow_name := workflow_name st; status := s;
          start_time := start_time st; end_time := end_time st;
          current_phase := current_phase st;
          steps_completed := steps_completed st;
          steps_failed := steps_failed st; outputs := outputs st |}) m).

Definition set_start_time (m : Machine) : Machine :=
  with_state (fun st =>
    {| workflow_name := workflow_name st; status := status st;
       start_time := Some (time_time H (m_world m)); end_time := end_time st;
       current_phase := current_phase st;
       steps_completed := steps_completed st;
       steps_failed := steps_failed st; outputs := outputs st |}) m.

Definition set_end_time (m : Machine) : Machine :=
  with_state (fun st =>
    {| workflow_name := workflow_name st; status := status st;
       start_time := start_time st; end_time := Some (time_time H (m_world m));
       current_phase := current_phase st;
       steps_completed := steps_completed st;
       steps_failed := steps_failed st; outputs := outputs st |}) m.

Definition set_current_phase (p : string) (m : Machine) : Machine :=
  with_state (fun st =>
    {| workflow_name := workflow_name st; status := status st;
       start_time := start_time st; end_time := end_time st;
       current_phase := Some p;
       steps_completed := steps_completed st;
       steps_failed := steps_failed st; outputs := outputs st |}) m.

(** [self.state.steps_completed.append(step_name)] *)
Definition append_completed (n : string) (m : Machine) : Machine :=
  with_state (fun st =>
    {| workflow_name := workflow_name st; status := status st;
       start_time := start_time st; end_time := end_time st;
       current_phase := current_phase st;
       steps_completed := steps_completed st ++ [n];
       steps_failed := steps_failed st; outputs := outputs st |}) m.

(** [self.state.steps_failed.append(step_name)] *)
Definition append_failed (n : string) (m : Machine) : Machine :=
  with_state (fun st =>
    {| workflow_name := workflow_name st; status := status st;
       start_time := start_time st; end_time := end_time st;
       current_phase := current_phase st;
       steps_completed := steps_completed st;
       steps_failed := steps_failed st ++ [n]; outputs := outputs st |}) m.

(** * Loading and validating a definition *)

Definition has_field (workflow : Workflow) (field : string) : bool :=
  if String.eqb field "name" then bool_decide (is_Some (wf_name workflow))
  else if String.eqb field "description" then bool_decide (is_Some (wf_description workflow))
  else if String.eqb field "type" then bool_decide (is_Some (wf_type workflow))
  else false.

Definition _validate_workflow_structure (workflow : Workflow) : Res unit :=
  let required_fields := ["name"; "description"; "type"] in
  match List.find (fun field => negb (has_field workflow field)) required_fields with
  | Some field =>
      Raise {| exn_class := ValueError;
               exn_str := "Missing required field: " +:+ field |}
  | None =>
      let type := default "" (wf_type workflow) in
      if negb (String.eqb type "workflow") then
        Raise {| exn_class := ValueError;
                 exn_str := "Invalid type: " +:+ type +:+ " (expected 'workflow')" |}
      else Ok tt
  end.

Definition load_workflow (workflow_name : string) (w : World H) : Res Workflow :=
  let workflow_path := workflow_path H workflow_name in
  if negb (path_exists H workflow_path w) then
    Raise {| exn_class := FileNotFoundError;
             exn_str := "Workflow not found: " +:+ workflow_path |}
  else
    match safe_load H workflow_path w with
    | Raise e => Raise e
    | Ok workflow =>
        match _validate_workflow_structure workflow with
        | Raise e => Raise e
        | Ok _ => Ok workflow
        end
    end.

Definition _validate_inputs (input_spec : InputSpec) (params : gmap string string)
    : Res unit :=
  let required := default [] (inputs_required input_spec) in
  match List.find (fun param_name => negb (bool_decide (is_Some (params !! param_name))))
          required with
  | Some param_name =>
      Raise {| exn_class := ValueError;
               exn_str := "Missing required parameter: " +:+ param_name |}
  | None => Ok tt
  end.

(** * Conditions and validation rules *)

(** [_substitute_params] on a value that may not be a string: [re.sub]
    raises a [TypeError] for one that is not (the text is that of
    CPython 3.11 and later). *)
Definition substitute_value (value : Condition) (params : gmap string string)
    : Res string :=
  match value with
  | CondText text => Ok (_substitute_params text params)
  | CondOther type_name =>
      Raise {| exn_class := TypeError;
               exn_str := "expected string or bytes-like object, got '"
                          +:+ type_name +:+ "'" |}
  end.

(** The substitution comes before the [try]: what it raises leaves
    [_evaluate_condition]; what [eval] raises makes the result [False]. *)
Definition _evaluate_condition (condition : Condition) (params : gmap string string)
    : Res bool :=
  match substitute_value condition params with
  | Raise e => Raise e
  | Ok condition =>
      match eval_bool H condition params with
      | Some b => Ok b
      | None => Ok false
      end
  end.

Fixpoint _validate_step_result (result : ExecutionResult) (validation : list string)
    : Res unit :=
  match validation with
  | [] => Ok tt
  | rule :: rules =>
      if String.eqb rule "exit_code_equals_0" then
        if negb (bool_decide (result_exit_code result = Some 0)) then
          Raise {| exn_class := ValueError;
                   exn_str := "Validation failed: exit code was "
                              +:+ str_opt_int (result_exit_code result)
                              +:+ ", expected 0" |}
        else _validate_step_result result rules
      else if String.eqb rule "no_syntax_errors" then
        match result_error result with
        | Some (String c e) =>
            let error := String c e in
            if contains "syntax" (lower error) || contains "error" (lower error) then
              Raise {| exn_class := ValueError;
                       exn_str := "Validation failed: syntax errors detected" |}
            else _validate_step_result result rules
        | _ => _validate_step_result result rules
        end
      else _validate_step_result result rules
  end.

(** The test of the rule [no_syntax_errors] on [result.error]. *)
Definition mentions_error (error : option string) : bool :=
  match error with
  | Some (String c e) =>
      contains "syntax" (lower (String c e)) || contains "error" (lower (String c e))
  | _ => false
  end.

(** * Tool handlers *)

(** The command line and the timeout of a [Bash] step. *)
Definition bash_command (step : Step) (params : gmap string string) : string :=
  let cmd_params := default no_params (step_params step) in
  let command := default "" (sp_command cmd_params) in
  _substitute_params command params.

Definition bash_timeout (step : Step) : Z :=
  let cmd_params := default no_params (step_params step) in
  default 120 (sp_timeout cmd_params).

Definition _execute_bash_step (step : Step) (params : gmap string string) (w : World H)
    : ExecutionResult * World H :=
  let command := bash_command step params in
  let timeout := bash_timeout step in
  match subprocess_run H command (Some timeout) w with
  | (Completed returncode stdout stderr, w') =>
      (mkResult (if returncode =? 0 then StepStatus.SUCCESS else StepStatus.FAILED)
                (Some stdout)
                (if negb (returncode =? 0) then Some stderr else None)
                (Some returncode), w')
  | (TimeoutExpired, w') =>
      (mkResult StepStatus.FAILED None
                (Some ("Command timed out after " +:+ str_int timeout +:+ "s")) None, w')
  | (RunRaised e, w') =>
      (mkResult StepStatus.FAILED None (Some (exn_str e)) None, w')
  end.

(** [step['params']] *)
Definition params_item (step : Step) : Res StepParams :=
  match step_params step with
  | Some p => Ok p
  | None => Raise {| exn_class := KeyError; exn_str := "'params'" |}
  end.

Definition _execute_read_step (step : Step) (params : gmap string string) (w : World H)
    : Res ExecutionResult * World H :=
  match params_item step with
  | Raise e => (Raise e, w)
  | Ok p =>
      let file_path := default "" (sp_file_path p) in
      let file_path := _substitute_params file_path params in
      match read_file H file_path w with
      | (Ok content, w') => (Ok (mkResult StepStatus.SUCCESS (Some content) None None), w')
      | (Raise e, w') => (Ok (mkResult StepStatus.FAILED None (Some (exn_str e)) None), w')
      end
  end.

(** [f"grep -r '{pattern}' {path}"] *)
Definition grep_cmd (step : Step) (params : gmap string string) : string :=
  let grep_params := default no_params (step_params step) in
  let pattern := default "" (sp_pattern grep_params) in
  let path := default "." (sp_path grep_params) in
  let pattern := _substitute_params pattern params in
  "grep -r '" +:+ pattern +:+ "' " +:+ path.

Definition _execute_grep_step (step : Step) (params : gmap string string) (w : World H)
    : ExecutionResult * World H :=
  let cmd := grep_cmd step params in
  match subprocess_run H cmd None w with
  | (Completed returncode stdout stderr, w') =>
      (mkResult StepStatus.SUCCESS (Some stdout) None (Some returncode), w')
  | (TimeoutExpired, w') =>
      (mkResult StepStatus.FAILED None (Some (str_TimeoutExpired cmd None)) None, w')
  | (RunRaised e, w') =>
      (mkResult StepStatus.FAILED None (Some (exn_str e)) None, w')
  end.

Definition _execute_glob_step (step : Step) (params : gmap string string) (w : World H)
    : Res ExecutionResult * World H :=
  match params_item step with
  | Raise e => (Raise e, w)
  | Ok p =>
      let pattern := default "" (sp_pattern p) in
      let pattern := _substitute_params pattern params in
      let cmd := "find . -path '" +:+ pattern +:+ "' 2>/dev/null" in
      match subprocess_run H cmd None w with
      | (Completed returncode stdout stderr, w') =>
          (Ok (mkResult StepStatus.SUCCESS (Some stdout) None None), w')
      | (TimeoutExpired, w') =>
          (Ok (mkResult StepStatus.FAILED None (Some (str_TimeoutExpired cmd None)) None), w')
      | (RunRaised e, w') =>
          (Ok (mkResult StepStatus.FAILED None (Some (exn_str e)) None), w')
      end
  end.

Definition _execute_edit_step (step : Step) (params : gmap string string)
    : ExecutionResult :=
  mkResult StepStatus.SUCCESS (Some "Edit operation skipped (requires agent)") None None.

Definition _execute_write_step (step : Step) (params : gmap string string) (w : World H)
    : ExecutionResult * World H :=
  let write_params := default no_params (step_params step) in
  let file_path := default "" (sp_file_path write_params) in
  let content := default "" (sp_content write_params) in
  let file_path := _substitute_params file_path params in
  let content := _substitute_params content params in
  match write_file H file_path content w with
  | (Ok _, w') =>
      (mkResult StepStatus.SUCCESS
         (Some ("Wrote " +:+ str_int (Z.of_nat (String.length content))
                +:+ " bytes to " +:+ file_path)) None None, w')
  | (Raise e, w') =>
      (mkResult StepStatus.FAILED None (Some (exn_str e)) None, w')
  end.

(** * The step runner *)

Definition tool_is (tool : option string) (name : string) : bool :=
  match tool with
  | Some t => String.eqb t name
  | None => false
  end.

(** The handler call of [_execute_step]: the branch on [tool].  A handler
    that is entered is recorded in the trace. *)
Definition call_handler (step : Step) (params : gmap string string)
    (action : option string) (m : Machine) : Res ExecutionResult * Machine :=
  let tool := step_tool step in
  if tool_is tool "Bash" then
    let '(result, w) := _execute_bash_step step params (m_world m) in
    (Ok result, with_world w (emit (EvTool "Bash" action) m))
  else if tool_is tool "Read" then
    let '(r, w) := _execute_read_step step params (m_world m) in
    (r, with_world w (emit (EvTool "Read" action) m))
  else if tool_is tool "Grep" then
    let '(result, w) := _execute_grep_step step params (m_world m) in
    (Ok result, with_world w (emit (EvTool "Grep" action) m))
  else if tool_is tool "Glob" then
    let '(r, w) := _execute_glob_step step params (m_world m) in
    (r, with_world w (emit (EvTool "Glob" action) m))
  else if tool_is tool "Edit" then
    (Ok (_execute_edit_step step params), emit (EvTool "Edit" action) m)
  else if tool_is tool "Write" then
    let '(result, w) := _execute_write_step step params (m_world m) in
    (Ok result, with_world w (emit (EvTool "Write" action) m))
  else
    (Ok (mkResult StepStatus.SUCCESS
           (Some ("Action '" +:+ str_opt action +:+ "' completed (simulation)"))
           None None), m).

(** The body of the [try] of [_execute_step]. *)
Definition try_step (step : Step) (params : gmap string string)
    (action : option string) (m : Machine) : Res ExecutionResult * Machine :=
  match call_handler step params action m with
  | (Raise e, m') => (Raise e, m')
  | (Ok result, m') =>
      match step_validation step with
      | Some validation =>
          match _validate_step_result result validation with
          | Raise e => (Raise e, m')
          | Ok _ => (Ok result, m')
          end
      | None => (Ok result, m')
      end
  end.

(** [step.get('action', step.get('name'))] *)
Definition action_of (step : Step) : option string :=
  match step_action step with
  | Some a => Some a
  | None => step_name step
  end.

Definition _execute_step (step : Step) (params : gmap string string) (m : Machine)
    : ExecutionResult * Machine :=
  let action := action_of step in
  match try_step step params action m with
  | (Ok result, m') => (result, m')
  | (Raise e, m') => (mkResult StepStatus.FAILED None (Some (exn_str e)) None, m')
  end.

(** [step.get('action', step.get('name', 'Unnamed Step'))] *)
Definition display_name (step : Step) : string :=
  default (default "Unnamed Step" (step_name step)) (step_action step).

(** The test at the head of the loop of [_execute_steps]: whether the
    step is passed over, or what the evaluation of its condition raises. *)
Definition check_condition (step : Step) (params : gmap string string) : Res bool :=
  match step_condition step with
  | Some condition =>
      match _evaluate_condition condition params with
      | Raise e => Raise e
      | Ok b => Ok (negb b)
      end
  | None => Ok false
  end.

(** The step is passed over. *)
Definition skipped (step : Step) (params : gmap string string) : bool :=
  match check_condition step params with
  | Ok b => b
  | Raise _ => false
  end.

(** The condition of the step, if it has one, is a string. *)
Definition text_condition (step : Step) : bool :=
  match step_condition step with
  | Some (CondOther _) => false
  | _ => true
  end.

Fixpoint _execute_steps (steps : list Step) (params : gmap string string) (m : Machine)
    : Res unit * Machine :=
  match steps with
  | [] => (Ok tt, m)
  | step :: rest =>
      let step_name := display_name step in
      match check_condition step params with
      | Raise e => (Raise e, m)
      | Ok true => _execute_steps rest params m
      | Ok false =>
          let '(result, m1) := _execute_step step params m in
          if bool_decide (result_status result = StepStatus.SUCCESS) then
            _execute_steps rest params (append_completed step_name m1)
          else
            (Raise {| exn_class := RuntimeError;
                      exn_str := "Step failed: " +:+ step_name +:+ " - "
                                 +:+ str_opt (result_error result) |},
             append_failed step_name m1)
      end
  end.

(** * Phases *)

(** [_handle_failure_actions] and [_check_success_criteria] walk through
    their block and print when the engine is verbose; the blocks are
    read as the list of mappings and the mapping they are meant to be. *)
Definition _handle_failure_actions (actions : list FailureAction) (error : string)
    (m : Machine) : Machine := m.

Definition _check_success_criteria (criteria : SuccessCriteria) (m : Machine) : Machine := m.

(** [range(start, stop)] *)
Definition range (start stop : Z) : list Z :=
  List.map (fun i => start + Z.of_nat i) (seq 0 (Z.to_nat (stop - start))).

(** The retry loop of one phase, over the attempts still to make. *)
Fixpoint attempt_loop (attempts : list Z) (max_attempts : Z) (phase : Phase)
    (steps : list Step) (params : gmap string string) (m : Machine)
    : Res unit * Machine :=
  match attempts with
  | [] => (Ok tt, m)
  | attempt :: later =>
      match _execute_steps steps params m with
      | (Ok _, m') => (Ok tt, m')
      | (Raise e, m') =>
          if attempt =? max_attempts then
            match phase_failure_actions phase with
            | Some actions => (Raise e, _handle_failure_actions actions (exn_str e) m')
            | None => (Raise e, m')
            end
          else attempt_loop later max_attempts phase steps params m'
      end
  end.

Fixpoint _execute_phases (phases : list Phase) (params : gmap string string) (m : Machine)
    : Res unit * Machine :=
  match phases with
  | [] => (Ok tt, m)
  | phase :: rest =>
      let phase_name := default "Unnamed Phase" (phase_name phase) in
      let m := set_current_phase phase_name m in
      let max_attempts := default 1 (phase_max_attempts phase) in
      let steps := default [] (phase_steps phase) in
      match attempt_loop (range 1 (max_attempts + 1)) max_attempts phase steps params m with
      | (Raise e, m') => (Raise e, m')
      | (Ok _, m') => _execute_phases rest params m'
      end
  end.

(** * [execute] *)

(** The engine between runs: [self.state], the host and the trace. *)
Record Engine := {
  state : option WorkflowState;
  world : World H;
  trace : list Event
}.

(** [WorkflowEngine(...)] on a host. *)
Definition new_engine (w : World H) : Engine :=
  {| state := None; world := w; trace := [] |}.

Definition engine_of (m : Machine) : Engine :=
  {| state := Some (m_state m); world := m_world m; trace := m_trace m |}.

(** The body of the [try] of [execute]. *)
Definition run_workflow (workflow : Workflow) (params : gmap string string) (m : Machine)
    : Res unit * Machine :=
  match _validate_inputs (default {| inputs_required := None |} (wf_inputs workflow)) params with
  | Raise e => (Raise e, m)
  | Ok _ =>
      let '(r, m1) :=
        match wf_phases workflow, wf_steps workflow with
        | Some phases, _ => _execute_phases phases params m
        | None, Some steps => _execute_steps steps params m
        | None, None =>
            (Raise {| exn_class := ValueError;
                      exn_str := "Workflow must have either 'phases' or 'steps'" |}, m)
        end in
      match r with
      | Raise e => (Raise e, m1)
      | Ok _ =>
          match wf_success_criteria workflow with
          | Some criteria => (Ok tt, _check_success_criteria criteria m1)
          | None => (Ok tt, m1)
          end
      end
  end.

(** The machine [execute] enters its [try] with: a new [WorkflowState],
    set running, with its start time. *)
Definition started (workflow_name : string) (e : Engine) : Machine :=
  let m := emit (EvStatus WorkflowStatus.NOT_STARTED)
             {| m_state := new_state workflow_name; m_world := world e;
                m_trace := trace e |} in
  let m := set_status WorkflowStatus.RUNNING m in
  set_start_time m.

Definition execute (workflow_name : string) (params : gmap string string) (e : Engine)
    : Res WorkflowState * Engine :=
  match load_workflow workflow_name (world e) with
  | Raise exn => (Raise exn, e)
  | Ok workflow =>
      match run_workflow workflow params (started workflow_name e) with
      | (Ok _, m') =>
          let m' := set_status WorkflowStatus.COMPLETED m' in
          let m' := set_end_time m' in
          (Ok (m_state m'), engine_of m')
      | (Raise exn, m') =>
          let m' := set_status WorkflowStatus.FAILED m' in
          let m' := set_end_time m' in
          (Raise exn, engine_of m')
      end
  end.

(** The three ways in which [execute] fails before it reaches the phases
    or steps of a definition: the file is not there, the document lacks
    [name], [description] or a [type] equal to [workflow], or [params]
    lacks a required input. *)
Inductive EarlyFailure (workflow_name : string) (params : gmap string string)
    (w : World H) : Prop :=
| DefinitionNotFound :
    path_exists H (workflow_path H workflow_name) w = false ->
    EarlyFailure workflow_name params w
| DefinitionInvalid (workflow : Workflow) :
    path_exists H (workflow_path H workflow_name) w = true ->
    safe_load H (workflow_path H workflow_name) w = Ok workflow ->
    wf_name workflow = None \/ wf_description workflow = None
    \/ wf_type workflow <> Some "workflow" ->
    EarlyFailure workflow_name params w
| MissingInput (workflow : Workflow) (param_name : string) :
    load_workflow workflow_name w = Ok workflow ->
    param_name ∈ default [] (inputs_required
                               (default {| inputs_required := None |} (wf_inputs workflow))) ->
    params !! param_name = None ->
    EarlyFailure workflow_name params w.

(** * The command line: [main] *)

(** [s.split(sep, 1)] read by [key, value = ...]: the text before and
    after the first [sep], [None] when [sep] does not occur and the
    unpacking raises. *)
Fixpoint split_once (sep : ascii) (s : string) : option (string * string) :=
  match s with
  | "" => None
  | String c s' =>
      if Ascii.eqb c sep then Some ("", s')
      else
        match split_once sep s' with
        | Some (key, value) => Some (String c key, value)
        | None => None
        end
  end.

(** The loop of [main] over [args.param]. *)
Fixpoint parse_params (args : list string) (params : gmap string string)
    : Res (gmap string string) :=
  match args with
  | [] => Ok params
  | param :: rest =>
      match split_once "=" param with
      | Some (key, value) => parse_params rest (<[key := value]> params)
      | None =>
          Raise {| exn_class := ValueError;
                   exn_str := "not enough values to unpack (expected 2, got 1)" |}
      end
  end.

(** What [argparse] hands to [main]; [--verbose] only prints and
    [--workflow-dir] is the directory of the host's [workflow_path]. *)
Record Args := {
  args_workflow : string;
  args_param : option (list string)
}.

(** [main]: the exit status passed to [sys.exit], or the exception that
    leaves [main] uncaught, and the engine if one was built. *)
Definition main (args : Args) (w : World H) : Res Z * option Engine :=
  match parse_params (default [] (args_param args)) ∅ with
  | Raise exn => (Raise exn, None)
  | Ok params =>
      match execute (args_workflow args) params (new_engine w) with
      | (Ok _, e) => (Ok 0, Some e)
      | (Raise _, e) => (Ok 1, Some e)
      end
  end.

(** * Reading a trace and a step list *)

Definition statuses (t : list Event) : list WorkflowStatus.t :=
  omap (fun ev => match ev with EvStatus s => Some s | EvTool _ _ => None end) t.

Definition tool_calls (t : list Event) : list (string * option string) :=
  omap (fun ev => match ev with EvTool tool a => Some (tool, a) | EvStatus _ => None end) t.

(** [m'] differs from [m] in nothing an assignment to [status], to a time
    stamp or to [workflow_name] would change. *)
Definition steady (m m' : Machine) : Prop :=
  workflow_name (m_state m') = workflow_name (m_state m)
  /\ status (m_state m') = status (m_state m)
  /\ start_time (m_state m') = start_time (m_state m)
  /\ end_time (m_state m') = end_time (m_state m)
  /\ statuses (m_trace m') = statuses (m_trace m).

(** The names of the steps of a list that are not passed over. *)
Definition runnable (steps : list Step) (params : gmap string string) : list string :=
  display_name <$> List.filter (fun step => negb (skipped step params)) steps.

End Engine.

Arguments status {H} _.
Arguments start_time {H} _.
Arguments end_time {H} _.
Arguments current_phase {H} _.
Arguments steps_completed {H} _.
Arguments steps_failed {H} _.
Arguments workflow_name {H} _.
Arguments m_state {H} _.
Arguments m_world {H} _.
Arguments m_trace {H} _.
Arguments state {H} _.
Arguments world {H} _.
Arguments trace {H} _.
Arguments steady {H} m m'.

(** * Sample documents and a sample host *)

Module Sample.

Definition shell_step (name command : string) (timeout : option Z)
    (validation : option (list string)) : Step :=
  {| step_action := Some name; step_name := None; step_tool := Some "Bash";
     step_params := Some {| sp_command := Some command; sp_timeout := timeout;
                            sp_file_path := None; sp_content := None;
                            sp_pattern := None; sp_path := None |};
     step_condition := None; step_validation := validation |}.

Definition grep_step (name pattern : string) : Step :=
  {| step_action := Some name; step_name := None; step_tool := Some "Grep";
     step_params := Some {| sp_command := None; sp_timeout := None;
                            sp_file_path := None; sp_content := None;
                            sp_pattern := Some pattern; sp_path := None |};
     step_condition := None; step_validation := None |}.

Definition guarded (condition : Condition) (step : Step) : Step :=
  {| step_action := step_action step; step_name := step_name step;
     step_tool := step_tool step; step_params := step_params step;
     step_condition := Some condition; step_validation := step_validation step |}.

Definition phase_of (name : string) (max_attempts : option Z) (steps : list Step) : Phase :=
  {| phase_name := Some name; phase_description := None;
     phase_max_attempts := max_attempts; phase_steps := Some steps;
     phase_failure_actions := None |}.

Definition document (required : list string) (phases : option (list Phase))
    (steps : option (list Step)) : Workflow :=
  {| wf_name := Some "sample"; wf_description := Some "a sample workflow";
     wf_type := Some "workflow";
     wf_inputs := Some {| inputs_required := Some required |};
     wf_phases := phases; wf_steps := steps; wf_success_criteria := None |}.

(** Step A runs ["true"], step B runs ["exit 1"] under the rule that the
    exit code is zero, in one phase that is attempted once. *)
Definition two_steps (a b : string) : Workflow :=
  document []
    (Some [phase_of "only" (Some 1)
             [shell_step a "true" None None;
              shell_step b "exit 1" None (Some ["exit_code_equals_0"])]])
    None.

(** A phase attempted up to [n] times: a step that always succeeds, then
    one that runs ["./flaky.sh"]. *)
Definition flaky_phase (n : Z) : Phase :=
  phase_of "build" (Some n)
    [shell_step "prepare" "true" None None; shell_step "flaky" "./flaky.sh" None None].

Definition documents (path : string) : option (Res Workflow) :=
  if String.eqb path "workflows/both.yaml" then
    Some (Ok (document [] (Some [phase_of "p" None [shell_step "in phase" "true" None None]])
                (Some [shell_step "in steps" "exit 1" None None])))
  else if String.eqb path "workflows/neither.yaml" then
    Some (Ok (document [] None None))
  else if String.eqb path "workflows/two_steps.yaml" then
    Some (Ok (two_steps "A" "B"))
  else if String.eqb path "workflows/retry3.yaml" then
    Some (Ok (document [] (Some [flaky_phase 3]) None))
  else if String.eqb path "workflows/needs_input.yaml" then
    Some (Ok (document ["task_id"] None (Some [shell_step "run" "true" None None])))
  else if String.eqb path "workflows/untyped.yaml" then
    Some (Ok {| wf_name := Some "untyped"; wf_description := Some "no type key";
                wf_type := None; wf_inputs := None; wf_phases := None;
                wf_steps := Some [shell_step "run" "true" None None];
                wf_success_criteria := None |})
  else None.

(** The world counts the runs of ["./flaky.sh"], which fails on its first
    two runs. *)
Definition run (cmd : string) (timeout : option Z) (w : nat) : RunOutcome * nat :=
  if String.eqb cmd "true" then (Completed 0 "" "", w)
  else if String.eqb cmd "exit 1" then (Completed 1 "" "", w)
  else if String.eqb cmd "sleep 10" then (TimeoutExpired, w)
  else if String.eqb cmd "./flaky.sh" then
    (if (w <? 2)%nat then Completed 1 "" "not yet" else Completed 0 "ready" "", S w)
  else if String.prefix "grep " cmd then (Completed 1 "" "", w)
  else (Completed 127 "" "command not found", w).

Definition host : Host :=
  {| World := nat;
     Time := nat;
     time_time := fun w => w;
     workflow_path := fun name => "workflows/" +:+ name +:+ ".yaml";
     path_exists := fun path _ => bool_decide (is_Some (documents path));
     safe_load := fun path _ =>
       default (Raise {| exn_class := OtherError; exn_str := "cannot open" |})
               (documents path);
     subprocess_run := run;
     read_file := fun path w =>
       (Raise {| exn_class := FileNotFoundError; exn_str := "No such file" |}, w);
     write_file := fun path content w => (Ok tt, w);
     eval_bool := fun expr _ =>
       if String.eqb expr "True" then Some true
       else if String.eqb expr "False" then Some false
       else None |}.

End Sample.

(** * Facts about text and substitution *)

Section SubstFacts.

Lemma drop_0 (s : string) : drop 0 s = s.
Proof. destruct s; reflexivity. Qed.

Lemma drop_length_app (a b : string) : drop (String.length a) (a +:+ b) = b.
Proof.
  induction a as [|c a IH]; simpl.
  - apply drop_0.
  - exact IH.
Qed.

Lemma append_assoc (a b c : string) : (a +:+ b) +:+ c = a +:+ (b +:+ c).
Proof. induction a as [|x a IH]; simpl; [reflexivity | now rewrite IH]. Qed.

Lemma span_append (f : ascii -> bool) (s a b : string) :
  span f s = (a, b) -> s = a +:+ b.
Proof.
  revert a b. induction s as [|c s IH]; simpl; intros a b Hs.
  - inversion Hs; reflexivity.
  - destruct (f c).
    + destruct (span f s) as [a' b'] eqn:E. inversion Hs; subst.
      simpl. f_equal. now apply IH.
    + inversion Hs; reflexivity.
Qed.

(** A match is a prefix of the text it was found in, and it is not empty. *)
Lemma match_placeholder_prefix (s : string) (m : Match) :
  match_placeholder s = Some m ->
  exists g rest, group0 m = String "{" g /\ s = String "{" (g +:+ rest).
Proof.
  unfold match_placeholder. intros Hm.
  destruct s as [|c0 s]; [discriminate|].
  destruct (decide (c0 = "{"%char)) as [->|Hc0]; cycle 1.
  { destruct c0 as [[] [] [] [] [] [] [] []]; try discriminate. now elim Hc0. }
  destruct s as [|c1 r]; [discriminate|].
  destruct (decide (c1 = "{"%char)) as [->|Hc1]; cycle 1.
  { destruct c1 as [[] [] [] [] [] [] [] []]; try discriminate. now elim Hc1. }
  destruct (span is_space r) as [ws1 r1] eqn:E1.
  destruct (span is_word r1) as [w r2] eqn:E2.
  destruct (span is_space r2) as [ws2 r3] eqn:E3.
  destruct w as [|cw w]; [discriminate|].
  destruct r3 as [|c2 r3]; [discriminate|].
  destruct (decide (c2 = "}"%char)) as [->|Hc2]; cycle 1.
  { destruct c2 as [[] [] [] [] [] [] [] []]; try discriminate. now elim Hc2. }
  destruct r3 as [|c3 r4]; [discriminate|].
  destruct (decide (c3 = "}"%char)) as [->|Hc3]; cycle 1.
  { destruct c3 as [[] [] [] [] [] [] [] []]; try discriminate. now elim Hc3. }
  inversion Hm; subst m; clear Hm. simpl.
  apply span_append in E1, E2, E3. subst r r1 r2.
  exists ("{" +:+ ws1 +:+ String cw w +:+ ws2 +:+ "}}"), r4. split; [reflexivity|].
  simpl. do 2 f_equal.
  rewrite !append_assoc. simpl. f_equal.
  rewrite !append_assoc. reflexivity.
Qed.

(** A text none of whose placeholders names a parameter passes a
    substitution unchanged. *)
Lemma re_sub_from_settled (params : gmap string string) (text : string) :
  forall skip : nat,
    (forall k, k ∈ placeholders_from skip text -> params !! k = None) ->
    re_sub_from (replace params) skip text = drop skip text.
Proof.
  induction text as [|c rest IH]; intros skip Hk.
  - destruct skip; reflexivity.
  - destruct skip as [|k].
    + cbn [re_sub_from placeholders_from] in *.
      destruct (match_placeholder (String c rest)) as [m|] eqn:Em.
      * destruct (match_placeholder_prefix _ _ Em) as (g & r & Hg & Hs).
        inversion Hs; subst c rest.
        unfold replace at 1. rewrite (Hk (strip (group1 m))) by (left).
        cbn [default]. rewrite IH.
        -- rewrite Hg. cbn [String.length Nat.sub]. rewrite Nat.sub_0_r.
           rewrite drop_length_app. reflexivity.
        -- intros k Hin. apply Hk. now right.
      * rewrite IH by exact Hk. now rewrite drop_0.
    + cbn [re_sub_from placeholders_from drop] in *. now apply IH.
Qed.

Lemma substitute_settled (text : string) (params : gmap string string) :
  (forall k, k ∈ placeholders text -> params !! k = None) ->
  _substitute_params text params = text.
Proof.
  intros Hk. unfold _substitute_params, re_sub.
  rewrite re_sub_from_settled by exact Hk. apply drop_0.
Qed.

Lemma word_not_space (c : ascii) : is_word c = true -> is_space c = false.
Proof. destruct c as [[] [] [] [] [] [] [] []]; vm_compute; congruence. Qed.

Lemma drop_while_space_word (s : string) :
  all_chars is_word s = true -> drop_while is_space s = s.
Proof.
  destruct s as [|c s]; simpl; [reflexivity|].
  intros [Hc _]%andb_prop. now rewrite (word_not_space c Hc).
Qed.

Lemma all_chars_rev (f : ascii -> bool) (s : string) :
  forall acc, all_chars f acc = true -> all_chars f s = true ->
    all_chars f (rev_string acc s) = true.
Proof.
  induction s as [|c s IH]; simpl; intros acc Ha Hs; [exact Ha|].
  apply andb_prop in Hs as [Hc Hs]. apply IH; [|exact Hs].
  simpl. now rewrite Hc, Ha.
Qed.

Lemma rev_string_spec (s : string) : forall acc, rev_string acc s = rev_string "" s +:+ acc.
Proof.
  induction s as [|c s IH]; simpl; intros acc; [reflexivity|].
  rewrite IH, (IH (String c "")), append_assoc. reflexivity.
Qed.

Lemma rev_string_involutive (s : string) : rev_string "" (rev_string "" s) = s.
Proof.
  induction s as [|c s IH]; simpl; [reflexivity|].
  rewrite (rev_string_spec s (String c "")).
  assert (Happ : forall a b, rev_string "" (a +:+ b) = rev_string "" b +:+ rev_string "" a).
  { clear. induction a as [|x a IHa]; intros b; simpl.
    - induction (rev_string "" b) as [|y r IHr]; simpl; [reflexivity | now rewrite <- IHr].
    - rewrite (rev_string_spec (a +:+ b)), IHa, (rev_string_spec a (String x "")).
      now rewrite append_assoc. }
  rewrite Happ, IH. reflexivity.
Qed.

(** [strip] leaves what [\w+] captured as it is. *)
Lemma strip_word (s : string) : all_chars is_word s = true -> strip s = s.
Proof.
  intros Hs. unfold strip. rewrite (drop_while_space_word s Hs).
  rewrite drop_while_space_word by (now apply all_chars_rev).
  apply rev_string_involutive.
Qed.

Lemma span_word_name (k rest : string) :
  all_chars is_word k = true ->
  span is_word (k +:+ String "}" rest) = (k, String "}" rest).
Proof.
  induction k as [|c k IH]; simpl; intros Hk; [reflexivity|].
  apply andb_prop in Hk as [Hc Hk]. now rewrite Hc, IH.
Qed.

(** The pattern matches a placeholder written without blanks. *)
Lemma match_placeholder_name (k rest : string) :
  is_name k = true ->
  match_placeholder ("{{" +:+ k +:+ "}}" +:+ rest)
  = Some {| group0 := "{{" +:+ k +:+ "}}"; group1 := k |}.
Proof.
  unfold is_name. intros [Hw Hne]%andb_prop.
  destruct k as [|c k]; [discriminate|].
  pose proof Hw as Hw'. simpl in Hw'. apply andb_prop in Hw' as [Hc _].
  unfold match_placeholder. simpl.
  rewrite (word_not_space c Hc).
  change (String c (k +:+ String "}" (String "}" rest)))
    with (String c k +:+ String "}" (String "}" rest)).
  rewrite (span_word_name (String c k) _ Hw). reflexivity.
Qed.

Lemma re_sub_from_skip (repl : Match -> string) (a b : string) :
  re_sub_from repl (String.length a) (a +:+ b) = re_sub_from repl 0 b.
Proof.
  induction a as [|c a IH]; simpl; [reflexivity | exact IH].
Qed.

(** One call replaces a placeholder by the parameter's value as it is and
    goes on behind the placeholder: the value is not scanned. *)
Lemma substitute_placeholder (k v rest : string) (params : gmap string string) :
  is_name k = true -> params !! k = Some v ->
  _substitute_params ("{{" +:+ k +:+ "}}" +:+ rest) params
  = v +:+ _substitute_params rest params.
Proof.
  intros Hk Hv. unfold _substitute_params, re_sub.
  pose proof (match_placeholder_name k rest Hk) as Hm.
  simpl in Hm |- *. cbn [re_sub_from]. rewrite Hm.
  unfold replace at 1. cbn [group0 group1].
  apply andb_prop in Hk as [Hw _].
  rewrite (strip_word k Hw), Hv. cbn [default]. f_equal.
  cbn [String.length Nat.sub].
  replace (S (String.length (k +:+ "}}")) - 0)%nat
    with (String.length (String "{" (k +:+ "}}"))) by (simpl; lia).
  rewrite <- (re_sub_from_skip (replace params) (String "{" (k +:+ "}}")) rest).
  simpl. now rewrite append_assoc.
Qed.

Lemma span_exact (f : ascii -> bool) (a b : string) :
  all_chars f a = true -> head_outside f b = true -> span f (a +:+ b) = (a, b).
Proof.
  induction a as [|c a IH]; simpl; intros Ha Hb.
  - destruct b as [|c b]; [reflexivity|]. simpl in Hb |- *.
    apply negb_true_iff in Hb. now rewrite Hb.
  - apply andb_prop in Ha as [Hc Ha]. rewrite Hc, (IH Ha Hb). reflexivity.
Qed.

Lemma space_not_word (c : ascii) : is_space c = true -> is_word c = false.
Proof. destruct c as [[] [] [] [] [] [] [] []]; vm_compute; congruence. Qed.

Lemma head_outside_space_name (k rest : string) :
  is_name k = true -> head_outside is_space (k +:+ rest) = true.
Proof.
  unfold is_name. intros [Hw Hne]%andb_prop.
  destruct k as [|c k]; [discriminate|]. simpl in Hw |- *.
  apply andb_prop in Hw as [Hc _]. now rewrite (word_not_space c Hc).
Qed.

Lemma head_outside_word_blanks (ws rest : string) :
  all_chars is_space ws = true ->
  head_outside is_word (ws +:+ String "}" rest) = true.
Proof.
  destruct ws as [|c ws]; simpl; [reflexivity|].
  intros [Hc _]%andb_prop. now rewrite (space_not_word c Hc).
Qed.

(** The pattern matches a placeholder with blanks around the name, and
    captures the name without them. *)
Lemma match_placeholder_blanks (ws1 k ws2 rest : string) :
  all_chars is_space ws1 = true -> is_name k = true -> all_chars is_space ws2 = true ->
  match_placeholder ("{{" +:+ ws1 +:+ k +:+ ws2 +:+ "}}" +:+ rest)
  = Some {| group0 := "{{" +:+ ws1 +:+ k +:+ ws2 +:+ "}}"; group1 := k |}.
Proof.
  intros H1 Hk H2.
  change ("{{" +:+ ws1 +:+ k +:+ ws2 +:+ "}}" +:+ rest)
    with (String "{" (String "{" (ws1 +:+ (k +:+ ws2 +:+ "}}" +:+ rest)))).
  unfold match_placeholder. cbv beta iota.
  rewrite (span_exact is_space ws1 _ H1 (head_outside_space_name k _ Hk)).
  pose proof Hk as Hk'. unfold is_name in Hk'. apply andb_prop in Hk' as [Hw Hne].
  rewrite (span_exact is_word k (ws2 +:+ "}}" +:+ rest) Hw
             (head_outside_word_blanks ws2 _ H2)).
  rewrite (span_exact is_space ws2 ("}}" +:+ rest) H2 eq_refl).
  destruct k as [|c k]; [discriminate|]. reflexivity.
Qed.

(** A placeholder at the head of a text, with or without blanks around
    the name, is replaced by the value of the parameter, or stays as it
    was written when [params] has no such key; the scan resumes behind
    it. *)
Lemma substitute_at_head (ws1 k ws2 rest : string)
    (params : gmap string string) :
  all_chars is_space ws1 = true -> is_name k = true -> all_chars is_space ws2 = true ->
  _substitute_params ("{{" +:+ ws1 +:+ k +:+ ws2 +:+ "}}" +:+ rest) params
  = default ("{{" +:+ ws1 +:+ k +:+ ws2 +:+ "}}") (params !! k)
    +:+ _substitute_params rest params.
Proof.
  intros H1 Hk H2. unfold _substitute_params, re_sub.
  pose proof (match_placeholder_blanks ws1 k ws2 rest H1 Hk H2) as Hm.
  change ("{{" +:+ ws1 +:+ k +:+ ws2 +:+ "}}" +:+ rest)
    with (String "{" (String "{" (ws1 +:+ k +:+ ws2 +:+ "}}" +:+ rest))) in *.
  cbn [re_sub_from]. rewrite Hm.
  unfold replace at 1. cbn [group0 group1].
  apply andb_prop in Hk as [Hw _]. rewrite (strip_word k Hw). f_equal.
  change ("{{" +:+ ws1 +:+ k +:+ ws2 +:+ "}}")
    with (String "{" (String "{" (ws1 +:+ k +:+ ws2 +:+ "}}"))).
  cbn [String.length Nat.sub].
  replace (ws1 +:+ k +:+ ws2 +:+ "}}" +:+ rest)
    with ((ws1 +:+ k +:+ ws2 +:+ "}}") +:+ rest)
    by (rewrite !append_assoc; reflexivity).
  apply re_sub_from_skip.
Qed.

End SubstFacts.

(** * Parameter substitution is a single pass *)

(** C2, as the specification states it, fails: a value that holds a
    placeholder is inserted as it is by the first call and replaced by the
    second. *)
Lemma substitute_not_idempotent :
  ~ (forall (s : string) (p : gmap string string),
       (forall k, k ∈ placeholders s -> is_Some (p !! k)) ->
       _substitute_params (_substitute_params s p) p = _substitute_params s p).
Proof.
  intros Hidem.
  specialize (Hidem "{{a}}" (<["a" := "{{a}}!"]> ∅)).
  assert (Hk : forall k, k ∈ placeholders "{{a}}" ->
                 is_Some ((<["a" := "{{a}}!"]> ∅ : gmap string string) !! k)).
  { intros k Hin. vm_compute in Hin. apply list_elem_of_singleton in Hin as ->.
    rewrite lookup_insert_eq. eauto. }
  specialize (Hidem Hk). vm_compute in Hidem. discriminate.
Qed.

Section SinglePass.

Lemma span_all (f : ascii -> bool) (s a b : string) :
  span f s = (a, b) -> all_chars f a = true.
Proof.
  revert a b. induction s as [|c s IH]; simpl; intros a b Hs.
  - inversion Hs; reflexivity.
  - destruct (f c) eqn:Hc.
    + destruct (span f s) as [a' b'] eqn:E. inversion Hs; subst.
      simpl. rewrite Hc. exact (IH _ _ eq_refl).
    + inversion Hs; reflexivity.
Qed.

Lemma span_word_not_blank (s a b : string) :
  span is_word s = (a, b) -> a <> "" -> is_name a = true.
Proof.
  intros Hs Hne. unfold is_name. rewrite (span_all _ _ _ _ Hs).
  destruct a; [congruence | reflexivity].
Qed.

(** What the scan matches at the head of a text is a placeholder as the
    pattern describes it. *)
Lemma match_placeholder_sound (s : string) (m : Match) :
  match_placeholder s = Some m -> placeholder_at s 0 (group1 m).
Proof.
  unfold match_placeholder, placeholder_at. intros Hm. rewrite drop_0.
  destruct s as [|c0 s]; [discriminate|].
  destruct (decide (c0 = "{"%char)) as [->|Hc0]; cycle 1.
  { destruct c0 as [[] [] [] [] [] [] [] []]; try discriminate. now elim Hc0. }
  destruct s as [|c1 r]; [discriminate|].
  destruct (decide (c1 = "{"%char)) as [->|Hc1]; cycle 1.
  { destruct c1 as [[] [] [] [] [] [] [] []]; try discriminate. now elim Hc1. }
  destruct (span is_space r) as [ws1 r1] eqn:E1.
  destruct (span is_word r1) as [w r2] eqn:E2.
  destruct (span is_space r2) as [ws2 r3] eqn:E3.
  destruct w as [|cw w]; [discriminate|].
  destruct r3 as [|c2 r3]; [discriminate|].
  destruct (decide (c2 = "}"%char)) as [->|Hc2]; cycle 1.
  { destruct c2 as [[] [] [] [] [] [] [] []]; try discriminate. now elim Hc2. }
  destruct r3 as [|c3 r4]; [discriminate|].
  destruct (decide (c3 = "}"%char)) as [->|Hc3]; cycle 1.
  { destruct c3 as [[] [] [] [] [] [] [] []]; try discriminate. now elim Hc3. }
  inversion Hm; subst m; clear Hm. cbn [group1].
  exists ws1, ws2, r4.
  pose proof (span_all _ _ _ _ E1) as H1. pose proof (span_all _ _ _ _ E3) as H3.
  pose proof (span_word_not_blank _ _ _ E2 ltac:(discriminate)) as H2.
  apply span_append in E1, E2, E3. subst r r1 r2.
  repeat split; try assumption.
Qed.

(** Conversely the scan, put at a placeholder, matches it whole. *)
Lemma placeholder_at_match (text : string) (i : nat) (k : string) :
  placeholder_at text i k ->
  group1 <$> match_placeholder (drop i text) = Some k.
Proof.
  intros (ws1 & ws2 & tail & -> & H1 & Hk & H2).
  rewrite (match_placeholder_blanks ws1 k ws2 tail H1 Hk H2). reflexivity.
Qed.

Lemma drop_S_cons (i : nat) (c : ascii) (s : string) : drop (S i) (String c s) = drop i s.
Proof. reflexivity. Qed.

Lemma placeholder_at_cons (c : ascii) (text : string) (i : nat) (k : string) :
  placeholder_at (String c text) (S i) k <-> placeholder_at text i k.
Proof. unfold placeholder_at. rewrite drop_S_cons. reflexivity. Qed.

(** Every name in the list of the scan is the name of a placeholder
    that is written in the text. *)
Lemma placeholders_from_written (text : string) :
  forall (skip : nat) (k : string),
    k ∈ placeholders_from skip text -> exists i, placeholder_at text i k.
Proof.
  induction text as [|c rest IH]; intros skip k Hin; [inversion Hin|].
  destruct skip as [|n]; cbn [placeholders_from] in Hin.
  - destruct (match_placeholder (String c rest)) as [m|] eqn:Hm.
    + apply elem_of_cons in Hin as [->|Hin].
      * apply match_placeholder_sound in Hm.
        pose proof Hm as (_ & _ & _ & _ & _ & Hname & _).
        apply andb_prop in Hname as [Hw _]. rewrite (strip_word _ Hw).
        exists 0%nat. exact Hm.
      * apply IH in Hin as (i & Hi). exists (S i). now apply placeholder_at_cons.
    + apply IH in Hin as (i & Hi). exists (S i). now apply placeholder_at_cons.
  - apply IH in Hin as (i & Hi). exists (S i). now apply placeholder_at_cons.
Qed.

(** A text in which no placeholder names a parameter passes a
    substitution unchanged. *)
Lemma substitute_nothing_to_replace (text : string) (params : gmap string string) :
  (forall i k, placeholder_at text i k -> params !! k = None) ->
  _substitute_params text params = text.
Proof.
  intros Hnone. apply substitute_settled. intros k Hin.
  apply placeholders_from_written in Hin as (i & Hi). exact (Hnone i k Hi).
Qed.

(** The leftmost placeholder of a text: what stands before it is kept,
    the placeholder gives way to the value of its parameter, or stays
    when there is none, and the scan goes on behind it. *)
Lemma substitute_leftmost (pre ws1 k ws2 rest : string) (params : gmap string string) :
  (forall i k', (i < String.length pre)%nat ->
     ~ placeholder_at (pre +:+ "{{" +:+ ws1 +:+ k +:+ ws2 +:+ "}}" +:+ rest) i k') ->
  all_chars is_space ws1 = true -> is_name k = true -> all_chars is_space ws2 = true ->
  _substitute_params (pre +:+ "{{" +:+ ws1 +:+ k +:+ ws2 +:+ "}}" +:+ rest) params
  = pre +:+ default ("{{" +:+ ws1 +:+ k +:+ ws2 +:+ "}}") (params !! k)
    +:+ _substitute_params rest params.
Proof.
  intros Hclear H1 Hk H2. induction pre as [|c pre IH].
  - apply (substitute_at_head ws1 k ws2 rest params H1 Hk H2).
  - change (String c pre +:+ "{{" +:+ ws1 +:+ k +:+ ws2 +:+ "}}" +:+ rest)
      with (String c (pre +:+ "{{" +:+ ws1 +:+ k +:+ ws2 +:+ "}}" +:+ rest)) in *.
    unfold _substitute_params, re_sub in *. cbn [re_sub_from].
    destruct (match_placeholder
                (String c (pre +:+ "{{" +:+ ws1 +:+ k +:+ ws2 +:+ "}}" +:+ rest)))
      as [m|] eqn:Hm.
    + exfalso. apply match_placeholder_sound in Hm.
      apply (Hclear 0%nat (group1 m)); [cbn; lia | exact Hm].
    + cbn. f_equal. apply IH. intros i k' Hi Hp.
      apply (Hclear (S i) k'); [cbn; lia|]. now apply placeholder_at_cons.
Qed.

End SinglePass.

(** C2 (amended): a second substitution changes nothing once the result
    of the first holds no placeholder that names a parameter, in
    particular when no placeholder remains.  One call is a single pass
    from left to right: what stands before the leftmost placeholder is
    kept, the placeholder gives way to the value of its parameter as it
    is (or stays as written when there is none), and the scan resumes
    behind the placeholder, so that it never reads the inserted value;
    a text without a placeholder for a parameter is returned as it
    is. *)
Theorem substitute_single_pass (p : gmap string string) :
  (forall s : string,
      (forall i k, placeholder_at (_substitute_params s p) i k -> p !! k = None) ->
      _substitute_params (_substitute_params s p) p = _substitute_params s p)
  /\ (forall pre ws1 k ws2 rest : string,
        (forall i k', (i < String.length pre)%nat ->
           ~ placeholder_at (pre +:+ "{{" +:+ ws1 +:+ k +:+ ws2 +:+ "}}" +:+ rest) i k') ->
        all_chars is_space ws1 = true -> is_name k = true ->
        all_chars is_space ws2 = true ->
        _substitute_params (pre +:+ "{{" +:+ ws1 +:+ k +:+ ws2 +:+ "}}" +:+ rest) p
        = pre +:+ default ("{{" +:+ ws1 +:+ k +:+ ws2 +:+ "}}") (p !! k)
          +:+ _substitute_params rest p)
  /\ (forall text : string,
        (forall i k, placeholder_at text i k -> p !! k = None) ->
        _substitute_params text p = text).
Proof.
  split; [|split].
  - intros s Hnone. now apply substitute_nothing_to_replace.
  - intros pre ws1 k ws2 rest Hclear H1 Hk H2. now apply substitute_leftmost.
  - intros text Hnone. now apply substitute_nothing_to_replace.
Qed.

Lemma substitute_single_pass_witness :
  _substitute_params (_substitute_params "{{ a }}+{{b}}" ∅) ∅
  = _substitute_params "{{ a }}+{{b}}" ∅
  /\ _substitute_params (_substitute_params "run {{ task }} in {{dir}}"
                          (<["task" := "T-1"]> ∅)) (<["task" := "T-1"]> ∅)
     = _substitute_params "run {{ task }} in {{dir}}" (<["task" := "T-1"]> ∅)
  /\ _substitute_params
       ("{x} " +:+ "{{" +:+ " " +:+ "task" +:+ " " +:+ "}}" +:+ " in {{task}}")
       (<["task" := "{{task}}!"]> ∅)
     = "{x} " +:+ "{{task}}!" +:+ _substitute_params " in {{task}}"
                                    (<["task" := "{{task}}!"]> ∅).
Proof.
  split; [|split].
  - apply (substitute_single_pass ∅). intros i k _. apply lookup_empty.
  - apply (substitute_single_pass (<["task" := "T-1"]> ∅)).
    intros i k Hp. apply placeholder_at_match in Hp.
    do 19 (destruct i as [|i];
           [vm_compute in Hp; first [discriminate | inversion Hp; reflexivity]|]).
    vm_compute in Hp. discriminate.
  - destruct (substitute_single_pass (<["task" := "{{task}}!"]> ∅)) as (_ & Hleft & _).
    refine (Hleft "{x} " " " "task" " " " in {{task}}" _ eq_refl eq_refl eq_refl).
    intros i k' Hi Hp. apply placeholder_at_match in Hp.
    do 4 (destruct i as [|i]; [vm_compute in Hp; discriminate|]).
    cbn in Hi. lia.
Defined.

(** * Frame properties of the step runner *)

Section Frames.
Context (H : Host).

Lemma statuses_emit_tool (t : list Event) (tool : string) (a : option string) :
  statuses (t ++ [EvTool tool a]) = statuses t.
Proof. unfold statuses. rewrite omap_app. simpl. apply app_nil_r. Qed.

Lemma statuses_emit_status (t : list Event) (s : WorkflowStatus.t) :
  statuses (t ++ [EvStatus s]) = (statuses t ++ [s])%list.
Proof. unfold statuses. rewrite omap_app. reflexivity. Qed.

Lemma tool_calls_emit_status (t : list Event) (s : WorkflowStatus.t) :
  tool_calls (t ++ [EvStatus s]) = tool_calls t.
Proof. unfold tool_calls. rewrite omap_app. simpl. apply app_nil_r. Qed.

(** A handler leaves [self.state] alone and adds no status to the trace. *)
Lemma call_handler_frame (step : Step) (params : gmap string string)
    (action : option string) (m m' : Machine H) (r : Res ExecutionResult) :
  call_handler H step params action m = (r, m') ->
  m_state m' = m_state m /\ statuses (m_trace m') = statuses (m_trace m).
Proof.
  unfold call_handler. intros Hc.
  repeat case_match; simplify_eq; simpl;
    rewrite ?statuses_emit_tool; split; reflexivity.
Qed.

Lemma _execute_step_frame (step : Step) (params : gmap string string)
    (m m' : Machine H) (result : ExecutionResult) :
  _execute_step H step params m = (result, m') ->
  m_state m' = m_state m /\ statuses (m_trace m') = statuses (m_trace m).
Proof.
  unfold _execute_step, try_step. intros Hs.
  destruct (call_handler H step params _ m) as [r m1] eqn:Hc.
  apply call_handler_frame in Hc.
  repeat case_match; simplify_eq; exact Hc.
Qed.

Lemma steady_refl (m : Machine H) : steady m m.
Proof. repeat split. Qed.

Lemma steady_trans (m1 m2 m3 : Machine H) : steady m1 m2 -> steady m2 m3 -> steady m1 m3.
Proof. unfold steady. intros (?&?&?&?&?) (?&?&?&?&?). repeat split; congruence. Qed.

Lemma _execute_steps_steady (steps : list Step) (params : gmap string string) :
  forall (m m' : Machine H) (r : Res unit),
    _execute_steps H steps params m = (r, m') -> steady m m'.
Proof.
  induction steps as [|step rest IH]; intros m m' r Hr; simpl in Hr.
  - inversion Hr; subst. apply steady_refl.
  - destruct (check_condition H step params) as [[]|e];
      [now apply IH in Hr | | inversion Hr; subst; apply steady_refl].
    destruct (_execute_step H step params m) as [result m1] eqn:Hs.
    apply _execute_step_frame in Hs as [Hst Htr].
    case_bool_decide.
    + apply IH in Hr. eapply steady_trans; [|exact Hr].
      unfold steady. simpl. rewrite Hst, Htr. repeat split.
    + inversion Hr; subst. unfold steady. simpl. rewrite Hst, Htr. repeat split.
Qed.

Lemma attempt_loop_steady (attempts : list Z) (max_attempts : Z) (phase : Phase)
    (steps : list Step) (params : gmap string string) :
  forall (m m' : Machine H) (r : Res unit),
    attempt_loop H attempts max_attempts phase steps params m = (r, m') -> steady m m'.
Proof.
  induction attempts as [|attempt later IH]; intros m m' r Hr; simpl in Hr.
  - inversion Hr; subst. apply steady_refl.
  - destruct (_execute_steps H steps params m) as [r1 m1] eqn:Hs.
    apply _execute_steps_steady in Hs.
    destruct r1 as [[]|e].
    + inversion Hr; subst. exact Hs.
    + destruct (attempt =? max_attempts).
      * unfold _handle_failure_actions in Hr.
        destruct (phase_failure_actions phase); inversion Hr; subst; exact Hs.
      * apply IH in Hr. eapply steady_trans; eassumption.
Qed.

Lemma _execute_phases_steady (phases : list Phase) (params : gmap string string) :
  forall (m m' : Machine H) (r : Res unit),
    _execute_phases H phases params m = (r, m') -> steady m m'.
Proof.
  induction phases as [|phase rest IH]; intros m m' r Hr; simpl in Hr.
  - inversion Hr; subst. apply steady_refl.
  - destruct (attempt_loop H _ _ phase _ params _) as [r1 m1] eqn:Ha.
    apply attempt_loop_steady in Ha.
    assert (Hm1 : steady m m1).
    { eapply steady_trans; [|exact Ha]. repeat split. }
    destruct r1 as [[]|e].
    + apply IH in Hr. eapply steady_trans; eassumption.
    + inversion Hr; subst. exact Hm1.
Qed.

Lemma run_workflow_steady (workflow : Workflow) (params : gmap string string)
    (m m' : Machine H) (r : Res unit) :
  run_workflow H workflow params m = (r, m') -> steady m m'.
Proof.
  unfold run_workflow, _check_success_criteria. intros Hr.
  destruct (_validate_inputs _ params); [|inversion Hr; subst; apply steady_refl].
  destruct (wf_phases workflow) as [phases|].
  - destruct (_execute_phases H phases params m) as [r1 m1] eqn:Hp.
    apply _execute_phases_steady in Hp.
    repeat case_match; simplify_eq; exact Hp.
  - destruct (wf_steps workflow) as [steps|].
    + destruct (_execute_steps H steps params m) as [r1 m1] eqn:Hp.
      apply _execute_steps_steady in Hp.
      repeat case_match; simplify_eq; exact Hp.
    + inversion Hr; subst. apply steady_refl.
Qed.

End Frames.

(** * Conditions *)

(** C5, as the specification states it, fails for a condition that is
    not a string: the substitution that opens the evaluation raises a
    [TypeError], and the run raises it instead of passing over the
    step. *)
Lemma condition_error_is_not_always_skipped :
  ~ (forall (H : Host) (step : Step) (condition : Condition)
       (params : gmap string string) (m : Machine H),
       step_condition step = Some condition ->
       _evaluate_condition H condition params <> Ok true ->
       _execute_steps H [step] params m = (Ok tt, m)).
Proof.
  intros Hclaim.
  specialize (Hclaim Sample.host
                (Sample.guarded (CondOther "bool")
                   (Sample.shell_step "deploy" "true" None None))
                (CondOther "bool") ∅
                (started Sample.host "sample" (new_engine Sample.host 0%nat))
                eq_refl).
  assert (Hne : _evaluate_condition Sample.host (CondOther "bool") ∅ <> Ok true)
    by discriminate.
  specialize (Hclaim Hne). vm_compute in Hclaim. discriminate.
Qed.

(** C5 (amended): a step whose condition is a string that evaluates to
    false, or whose evaluation by [eval] raises, is passed over: the run
    goes on with the next step from the same machine, so no handler is
    called and neither [steps_completed] nor [steps_failed] receives
    the step's name.  A step whose condition is not a string is not
    passed over: the run raises a [TypeError] at it, from a machine
    that the step has not changed either. *)
Theorem false_condition_skips_step (H : Host) (step : Step) (rest : list Step)
    (text : string) (params : gmap string string) (m : Machine H) :
  step_condition step = Some (CondText text) ->
  eval_bool H (_substitute_params text params) params <> Some true ->
  _execute_steps H (step :: rest) params m = _execute_steps H rest params m
  /\ _execute_steps H [step] params m = (Ok tt, m)
  /\ (forall (other : Step) (type_name : string),
        step_condition other = Some (CondOther type_name) ->
        _execute_steps H (other :: rest) params m
        = (Raise {| exn_class := TypeError;
                    exn_str := "expected string or bytes-like object, got '"
                               +:+ type_name +:+ "'" |}, m)).
Proof.
  intros Hc Hev.
  assert (Hskip : check_condition H step params = Ok true).
  { unfold check_condition, _evaluate_condition, substitute_value. rewrite Hc.
    destruct (eval_bool H _ params) as [[]|]; [congruence | reflexivity | reflexivity]. }
  split; [|split].
  - cbn [_execute_steps]. rewrite Hskip. reflexivity.
  - cbn [_execute_steps]. rewrite Hskip. reflexivity.
  - intros other type_name Ho. cbn [_execute_steps].
    unfold check_condition, _evaluate_condition, substitute_value. rewrite Ho.
    reflexivity.
Qed.

Lemma false_condition_skips_step_witness :
  let step := Sample.guarded (CondText "{{go}} and")
                (Sample.shell_step "deploy" "exit 1" None None) in
  let after := [Sample.shell_step "after" "true" None None] in
  let m := started Sample.host "sample" (new_engine Sample.host 0%nat) in
  _execute_steps Sample.host (step :: after) (<["go" := "False"]> ∅) m
  = _execute_steps Sample.host after (<["go" := "False"]> ∅) m
  /\ _execute_steps Sample.host [step] (<["go" := "False"]> ∅) m = (Ok tt, m)
  /\ (forall (other : Step) (type_name : string),
        step_condition other = Some (CondOther type_name) ->
        _execute_steps Sample.host (other :: after) (<["go" := "False"]> ∅) m
        = (Raise {| exn_class := TypeError;
                    exn_str := "expected string or bytes-like object, got '"
                               +:+ type_name +:+ "'" |}, m)).
Proof.
  intros step after m.
  apply (false_condition_skips_step Sample.host step after "{{go}} and").
  - reflexivity.
  - vm_compute. discriminate.
Defined.

(** * Tool handlers *)

(** C6, as the specification states it, fails on the text of the error:
    the handler puts [Command] in front of it. *)
Lemma timeout_error_text_differs :
  ~ (forall (H : Host) (step : Step) (params : gmap string string) (w w' : World H),
       subprocess_run H (bash_command step params) (Some (bash_timeout step)) w
       = (TimeoutExpired, w') ->
       result_error (_execute_bash_step H step params w).1
       = Some ("timed out after " +:+ str_int (bash_timeout step) +:+ "s")).
Proof.
  intros Hclaim.
  specialize (Hclaim Sample.host (Sample.shell_step "wait" "sleep 10" (Some 5) None)
                ∅ 0%nat 0%nat eq_refl).
  vm_compute in Hclaim. discriminate.
Qed.

(** C6 (amended): when the command of a [Bash] step runs into its timeout
    the handler returns a failed result whose error is
    [Command timed out after Ns], with neither output nor exit code; a
    command that ends, with whatever exit code, yields a result that has
    an exit code, so the two failures differ; and [_execute_step] returns
    a failed result as well: nothing is raised. *)
Theorem bash_timeout_is_a_failed_result (H : Host) (step : Step)
    (params : gmap string string) (m : Machine H) (w' : World H) :
  step_tool step = Some "Bash" ->
  subprocess_run H (bash_command step params) (Some (bash_timeout step)) (m_world m)
  = (TimeoutExpired, w') ->
  _execute_bash_step H step params (m_world m)
  = (mkResult StepStatus.FAILED None
       (Some ("Command timed out after " +:+ str_int (bash_timeout step) +:+ "s")) None,
     w')
  /\ (forall (w1 w2 : World H) (returncode : Z) (stdout stderr : string),
        subprocess_run H (bash_command step params) (Some (bash_timeout step)) w1
        = (Completed returncode stdout stderr, w2) ->
        result_exit_code (_execute_bash_step H step params w1).1 = Some returncode
        /\ (_execute_bash_step H step params w1).1
           <> (_execute_bash_step H step params (m_world m)).1)
  /\ result_status (_execute_step H step params m).1 = StepStatus.FAILED.
Proof.
  intros Htool Hrun.
  assert (Hb : _execute_bash_step H step params (m_world m)
               = (mkResult StepStatus.FAILED None
                    (Some ("Command timed out after " +:+ str_int (bash_timeout step) +:+ "s"))
                    None, w')).
  { unfold _execute_bash_step. rewrite Hrun. reflexivity. }
  split; [exact Hb|]. split.
  - intros w1 w2 rc out err Hc. rewrite Hb.
    unfold _execute_bash_step. rewrite Hc. simpl. split; [reflexivity|].
    intros Heq. inversion Heq.
  - unfold _execute_step, try_step, call_handler.
    rewrite Htool. cbn [tool_is]. change (String.eqb "Bash" "Bash") with true.
    cbv iota. rewrite Hb.
    destruct (step_validation step) as [validation|]; [|reflexivity].
    destruct (_validate_step_result _ validation); reflexivity.
Qed.

Lemma bash_timeout_is_a_failed_result_witness :
  let step := Sample.shell_step "wait" "sleep 10" (Some 5) (Some ["exit_code_equals_0"]) in
  let m := started Sample.host "sample" (new_engine Sample.host 0%nat) in
  _execute_bash_step Sample.host step ∅ (m_world m)
  = (mkResult StepStatus.FAILED None (Some "Command timed out after 5s") None, 0%nat)
  /\ (forall (w1 w2 : nat) (returncode : Z) (stdout stderr : string),
        Sample.run "sleep 10" (Some 5) w1 = (Completed returncode stdout stderr, w2) ->
        result_exit_code (_execute_bash_step Sample.host step ∅ w1).1 = Some returncode
        /\ (_execute_bash_step Sample.host step ∅ w1).1
           <> (_execute_bash_step Sample.host step ∅ (m_world m)).1)
  /\ result_status (_execute_step Sample.host step ∅ m).1 = StepStatus.FAILED.
Proof.
  intros step m.
  apply (bash_timeout_is_a_failed_result Sample.host step ∅ m 0%nat).
  - reflexivity.
  - reflexivity.
Defined.

(** C10: a [Grep] step whose subprocess call returns is a success whatever
    the exit code of the search, a search without matches included: the
    exit code is kept in [exit_code] and [error] stays unset. *)
Theorem grep_succeeds_whatever_the_exit_code (H : Host) (step : Step)
    (params : gmap string string) (w w' : World H)
    (returncode : Z) (stdout stderr : string) :
  subprocess_run H (grep_cmd step params) None w = (Completed returncode stdout stderr, w') ->
  _execute_grep_step H step params w
  = (mkResult StepStatus.SUCCESS (Some stdout) None (Some returncode), w').
Proof.
  intros Hrun. unfold _execute_grep_step. rewrite Hrun. reflexivity.
Qed.

Lemma grep_succeeds_whatever_the_exit_code_witness :
  _execute_grep_step Sample.host (Sample.grep_step "search" "TODO {{tag}}")
    (<["tag" := "v2"]> ∅) 0%nat
  = (mkResult StepStatus.SUCCESS (Some "") None (Some 1), 0%nat).
Proof.
  apply (grep_succeeds_whatever_the_exit_code Sample.host
           (Sample.grep_step "search" "TODO {{tag}}") (<["tag" := "v2"]> ∅)
           0%nat 0%nat 1 "" "").
  reflexivity.
Defined.

(** * What a run of a step list records *)

Section Accounting.
Context (H : Host).

Lemma runnable_cons (step : Step) (rest : list Step) (params : gmap string string) :
  runnable H (step :: rest) params
  = if skipped H step params then runnable H rest params
    else display_name step :: runnable H rest params.
Proof. unfold runnable. simpl. destruct (skipped H step params); reflexivity. Qed.

(** A run that succeeds records every step that is not passed over as
    completed, in order, and nothing as failed. *)
Lemma _execute_steps_ok (steps : list Step) (params : gmap string string) :
  forall (m m' : Machine H),
    _execute_steps H steps params m = (Ok tt, m') ->
    steps_completed (m_state m')
    = (steps_completed (m_state m) ++ runnable H steps params)%list
    /\ steps_failed (m_state m') = steps_failed (m_state m).
Proof.
  induction steps as [|step rest IH]; intros m m' Hr.
  - simpl in Hr. inversion Hr; subst. unfold runnable. simpl.
    now rewrite app_nil_r.
  - rewrite runnable_cons. cbn [_execute_steps] in Hr. unfold skipped.
    destruct (check_condition H step params) as [[]|e]; [now apply IH | | discriminate].
    destruct (_execute_step H step params m) as [result m1] eqn:Hs.
    apply _execute_step_frame in Hs as [Hst _].
    case_bool_decide; [|discriminate].
    apply IH in Hr as [Hc Hf]. simpl in Hc, Hf. rewrite Hst in Hc, Hf.
    split; [|exact Hf]. rewrite Hc, <- app_assoc. reflexivity.
Qed.

Lemma check_condition_raise (step : Step) (params : gmap string string) (e : Exn) :
  check_condition H step params = Raise e ->
  text_condition step = false /\ exn_class e = TypeError.
Proof.
  unfold check_condition, text_condition, _evaluate_condition, substitute_value.
  destruct (step_condition step) as [[text|type_name]|]; cbn.
  - destruct (eval_bool H _ params); discriminate.
  - intros Heq; inversion Heq; subst. split; reflexivity.
  - discriminate.
Qed.

(** A run that succeeds has met no condition that is not a string. *)
Lemma _execute_steps_ok_text (steps : list Step) (params : gmap string string) :
  forall (m m' : Machine H),
    _execute_steps H steps params m = (Ok tt, m') ->
    List.Forall (fun step => text_condition step = true) steps.
Proof.
  induction steps as [|step rest IH]; intros m m' Hr; [constructor|].
  cbn [_execute_steps] in Hr.
  destruct (check_condition H step params) as [[]|e] eqn:Hc; [| |discriminate].
  - constructor; [|now apply IH in Hr].
    destruct (text_condition step) eqn:Ht; [reflexivity|].
    unfold check_condition, text_condition, _evaluate_condition, substitute_value in *.
    destruct (step_condition step) as [[text|type_name]|]; cbn in *; discriminate.
  - destruct (_execute_step H step params m) as [result m1].
    case_bool_decide; [|discriminate].
    constructor; [|now apply IH in Hr].
    destruct (text_condition step) eqn:Ht; [reflexivity|].
    unfold check_condition, text_condition, _evaluate_condition, substitute_value in *.
    destruct (step_condition step) as [[text|type_name]|]; cbn in *; discriminate.
Qed.

(** A run that raises has either failed at a step, after it has
    recorded the steps before it as completed and the failing one as
    failed, or met a condition that is not a string, with nothing
    recorded as failed. *)
Lemma _execute_steps_raise_cases (steps : list Step) (params : gmap string string) :
  forall (m m' : Machine H) (e : Exn),
    _execute_steps H steps params m = (Raise e, m') ->
    (exists (done : list string) (failed detail : string) (later : list string),
        runnable H steps params = (done ++ failed :: later)%list
        /\ steps_completed (m_state m') = (steps_completed (m_state m) ++ done)%list
        /\ steps_failed (m_state m') = (steps_failed (m_state m) ++ [failed])%list
        /\ e = {| exn_class := RuntimeError;
                  exn_str := "Step failed: " +:+ failed +:+ " - " +:+ detail |})
    \/ (exn_class e = TypeError
        /\ steps_failed (m_state m') = steps_failed (m_state m)
        /\ List.Exists (fun step => text_condition step = false) steps).
Proof.
  induction steps as [|step rest IH]; intros m m' e Hr.
  - simpl in Hr. discriminate.
  - rewrite runnable_cons. cbn [_execute_steps] in Hr. unfold skipped.
    destruct (check_condition H step params) as [[]|e0] eqn:Hc.
    + apply IH in Hr as [Hfail|(Hcl & Hf & Hex)]; [now left|].
      right. repeat split; [exact Hcl | exact Hf | now apply List.Exists_cons_tl].
    + destruct (_execute_step H step params m) as [result m1] eqn:Hs.
      apply _execute_step_frame in Hs as [Hst _].
      case_bool_decide.
      * apply IH in Hr as [(done & failed & detail & later & Hrun & Hcm & Hf & He)
                          |(Hcl & Hf & Hex)].
        -- left. simpl in Hcm, Hf. rewrite Hst in Hcm, Hf.
           exists (display_name step :: done), failed, detail, later.
           rewrite Hrun, Hcm, Hf, <- app_assoc. repeat split. exact He.
        -- right. simpl in Hf. rewrite Hst in Hf.
           repeat split; [exact Hcl | exact Hf | now apply List.Exists_cons_tl].
      * inversion Hr; subst. simpl. rewrite Hst. left.
        exists [], (display_name step), (str_opt (result_error result)),
          (runnable H rest params).
        rewrite app_nil_r. repeat split.
    + inversion Hr; subst e0 m'. apply check_condition_raise in Hc as [Ht Hcl].
      right. repeat split; [exact Hcl | now apply List.Exists_cons_hd].
Qed.

(** A run that raises, over steps whose conditions are strings, has
    recorded the steps before the failing one as completed and the
    failing one as failed. *)
Lemma _execute_steps_raise (steps : list Step) (params : gmap string string) :
  forall (m m' : Machine H) (e : Exn),
    List.Forall (fun step => text_condition step = true) steps ->
    _execute_steps H steps params m = (Raise e, m') ->
    exists (done : list string) (failed : string) (later : list string),
      runnable H steps params = (done ++ failed :: later)%list
      /\ steps_completed (m_state m') = (steps_completed (m_state m) ++ done)%list
      /\ steps_failed (m_state m') = (steps_failed (m_state m) ++ [failed])%list.
Proof.
  intros m m' e Htext Hr.
  apply _execute_steps_raise_cases in Hr
    as [(done & failed & detail & later & Hrun & Hc & Hf & _)|(_ & _ & Hex)].
  - exists done, failed, later. repeat split; assumption.
  - exfalso. apply List.Exists_exists in Hex as (step & Hin & Hfalse).
    rewrite List.Forall_forall in Htext. rewrite (Htext step Hin) in Hfalse.
    discriminate.
Qed.

Lemma range_cons (start stop : Z) :
  start < stop -> range start stop = start :: range (start + 1) stop.
Proof.
  intros Hlt. unfold range.
  replace (Z.to_nat (stop - start)) with (S (Z.to_nat (stop - (start + 1)))) by lia.
  cbn [seq List.map]. f_equal; [lia|].
  rewrite <- seq_shift, List.map_map.
  apply List.map_ext. intros i. lia.
Qed.

(** The retry loop of a phase that ends well: each attempt that failed
    has left the names of its completed steps and of its failing step
    behind, and the attempt that succeeded has recorded the whole list
    again. *)
Lemma attempt_loop_ok (max_attempts : Z) (phase : Phase) (steps : list Step)
    (params : gmap string string) :
  forall (attempts : list Z) (first : Z) (m m' : Machine H),
    attempts = range first (max_attempts + 1) ->
    first <= max_attempts ->
    attempt_loop H attempts max_attempts phase steps params m = (Ok tt, m') ->
    List.Forall (fun step => text_condition step = true) steps
    /\ exists fails : list (list string * string),
      List.Forall (fun f => exists later,
                     runnable H steps params = (f.1 ++ f.2 :: later)%list) fails
      /\ steps_completed (m_state m')
         = (steps_completed (m_state m) ++ concat (fails.*1)
            ++ runnable H steps params)%list
      /\ steps_failed (m_state m') = (steps_failed (m_state m) ++ fails.*2)%list.
Proof.
  induction attempts as [|attempt later IH]; intros first m m' Ha Hle Hr.
  - rewrite range_cons in Ha by lia. discriminate.
  - rewrite range_cons in Ha by lia. inversion Ha; subst attempt later.
    cbn [attempt_loop] in Hr.
    destruct (_execute_steps H steps params m) as [[[]|e] m1] eqn:Hs.
    + inversion Hr; subst m1.
      pose proof (_execute_steps_ok_text _ _ _ _ Hs) as Htext.
      apply _execute_steps_ok in Hs as [Hc Hf].
      split; [exact Htext|].
      exists []. simpl. rewrite app_nil_r. repeat split; [constructor | exact Hc | exact Hf].
    + destruct (first =? max_attempts) eqn:Hlast.
      { destruct (phase_failure_actions phase); discriminate. }
      apply Z.eqb_neq in Hlast.
      apply (IH (first + 1)) in Hr as (Htext & fails & Hall & Hc' & Hf');
        [|reflexivity|lia].
      apply (_execute_steps_raise _ _ _ _ _ Htext) in Hs
        as (done & failed & rest & Hrun & Hc & Hf).
      split; [exact Htext|].
      exists ((done, failed) :: fails). split; [|split].
      * constructor; [exists rest; exact Hrun | exact Hall].
      * rewrite Hc', Hc. simpl. rewrite <- !app_assoc. reflexivity.
      * rewrite Hf', Hf. simpl. rewrite <- app_assoc. reflexivity.
Qed.

End Accounting.

(** * Retries *)

Section Retries.
Context (H : Host).

(** [execute] on a definition with one phase, once it is loaded and its
    inputs are there: the retry loop of the phase between [started] and
    the final assignment to [status]. *)
Lemma execute_one_phase (name : string) (params : gmap string string) (e : Engine H)
    (workflow : Workflow) (phase : Phase) :
  load_workflow H name (world e) = Ok workflow ->
  wf_phases workflow = Some [phase] ->
  _validate_inputs (default {| inputs_required := None |} (wf_inputs workflow)) params
  = Ok tt ->
  execute H name params e
  = match attempt_loop H (range 1 (default 1 (phase_max_attempts phase) + 1))
            (default 1 (phase_max_attempts phase)) phase
            (default [] (phase_steps phase)) params
            (set_current_phase H (default "Unnamed Phase" (phase_name phase))
               (started H name e)) with
    | (Ok _, m') =>
        (Ok (m_state (set_end_time H (set_status H WorkflowStatus.COMPLETED m'))),
         engine_of H (set_end_time H (set_status H WorkflowStatus.COMPLETED m')))
    | (Raise exn, m') =>
        (Raise exn, engine_of H (set_end_time H (set_status H WorkflowStatus.FAILED m')))
    end.
Proof.
  intros Hload Hphases Hinputs.
  unfold execute, run_workflow. rewrite Hload, Hinputs, Hphases.
  cbn [_execute_phases].
  destruct (attempt_loop H _ _ phase _ params _) as [[[]|exn] m'];
    [|reflexivity].
  unfold _check_success_criteria.
  destruct (wf_success_criteria workflow); reflexivity.
Qed.

End Retries.

(** C3: when an attempt of a phase fails and it was not the last one, the
    loop runs the whole step list of the phase again; a phase with
    [max_attempts: 3] whose list fails on the first two attempts and
    succeeds on the third ends well after these three runs, each from
    the first step on, and [execute] leaves the state completed. *)
Theorem phase_retries_whole_sequence (H : Host) (name : string)
    (params : gmap string string) (e : Engine H) (workflow : Workflow) (phase : Phase)
    (e1 e2 : Exn) (m1 m2 m3 : Machine H) :
  load_workflow H name (world e) = Ok workflow ->
  _validate_inputs (default {| inputs_required := None |} (wf_inputs workflow)) params
  = Ok tt ->
  wf_phases workflow = Some [phase] ->
  phase_max_attempts phase = Some 3 ->
  _execute_steps H (default [] (phase_steps phase)) params
    (set_current_phase H (default "Unnamed Phase" (phase_name phase)) (started H name e))
  = (Raise e1, m1) ->
  _execute_steps H (default [] (phase_steps phase)) params m1 = (Raise e2, m2) ->
  _execute_steps H (default [] (phase_steps phase)) params m2 = (Ok tt, m3) ->
  (forall (attempt max_attempts : Z) (later : list Z) (m m' : Machine H) (exn : Exn),
      _execute_steps H (default [] (phase_steps phase)) params m = (Raise exn, m') ->
      attempt <> max_attempts ->
      attempt_loop H (attempt :: later) max_attempts phase
        (default [] (phase_steps phase)) params m
      = attempt_loop H later max_attempts phase (default [] (phase_steps phase)) params m')
  /\ _execute_phases H [phase] params (started H name e) = (Ok tt, m3)
  /\ exists (st : WorkflowState H) (e' : Engine H),
       execute H name params e = (Ok st, e')
       /\ state e' = Some st
       /\ status st = WorkflowStatus.COMPLETED
       /\ steps_completed st = steps_completed (m_state m3)
       /\ steps_failed st = steps_failed (m_state m3)
       /\ world e' = m_world m3
       /\ tool_calls (trace e') = tool_calls (m_trace m3).
Proof.
  intros Hload Hinputs Hphases Hmax Hrun1 Hrun2 Hrun3.
  assert (Hloop : attempt_loop H (range 1 (3 + 1)) 3 phase
                    (default [] (phase_steps phase)) params
                    (set_current_phase H (default "Unnamed Phase" (phase_name phase))
                       (started H name e))
                  = (Ok tt, m3)).
  { change (range 1 (3 + 1)) with [1; 2; 3].
    cbn [attempt_loop]. rewrite Hrun1. cbn [Z.eqb Pos.eqb].
    rewrite Hrun2. cbn [Z.eqb Pos.eqb]. rewrite Hrun3. reflexivity. }
  split; [|split].
  - intros attempt max_attempts later m m' exn Hraise Hne.
    cbn [attempt_loop]. rewrite Hraise.
    apply Z.eqb_neq in Hne. rewrite Hne. reflexivity.
  - cbn [_execute_phases]. rewrite Hmax. change (default 1 (Some 3)) with 3.
    rewrite Hloop. reflexivity.
  - rewrite (execute_one_phase H name params e workflow phase Hload Hphases Hinputs).
    rewrite Hmax. change (default 1 (Some 3)) with 3. rewrite Hloop.
    eexists _, _. split; [reflexivity|].
    cbn. rewrite tool_calls_emit_status. repeat split.
Qed.

(** C9: when the first attempt of a phase fails and a later one succeeds,
    the steps that the failed attempts completed are in [steps_completed]
    once for each of these attempts and once more for the attempt that
    succeeded, and the failing steps stay in [steps_failed]: the workflow
    is completed with a [steps_failed] that is not empty. *)
Theorem retried_steps_are_recorded_again (H : Host) (name : string)
    (params : gmap string string) (e : Engine H) (workflow : Workflow) (phase : Phase)
    (exn : Exn) (m1 : Machine H) (st : WorkflowState H) (e' : Engine H) :
  load_workflow H name (world e) = Ok workflow ->
  wf_phases workflow = Some [phase] ->
  1 <= default 1 (phase_max_attempts phase) ->
  _execute_steps H (default [] (phase_steps phase)) params
    (set_current_phase H (default "Unnamed Phase" (phase_name phase)) (started H name e))
  = (Raise exn, m1) ->
  execute H name params e = (Ok st, e') ->
  status st = WorkflowStatus.COMPLETED
  /\ steps_failed st <> []
  /\ exists (done : list string) (failed : string) (fails : list (list string * string)),
       steps_completed (m_state m1) = done
       /\ steps_failed (m_state m1) = [failed]
       /\ List.Forall
            (fun f => exists later,
               runnable H (default [] (phase_steps phase)) params
               = (f.1 ++ f.2 :: later)%list)
            ((done, failed) :: fails)
       /\ steps_completed st
          = (done ++ concat (fails.*1)
             ++ runnable H (default [] (phase_steps phase)) params)%list
       /\ steps_failed st = failed :: fails.*2.
Proof.
  intros Hload Hphases Hmax Hrun1 Hexec.
  assert (Hinputs : _validate_inputs
                      (default {| inputs_required := None |} (wf_inputs workflow)) params
                    = Ok tt).
  { revert Hexec. unfold execute, run_workflow. rewrite Hload.
    destruct (_validate_inputs _ params) as [[]|]; [reflexivity | discriminate]. }
  rewrite (execute_one_phase H name params e workflow phase Hload Hphases Hinputs) in Hexec.
  rewrite range_cons in Hexec by lia. cbn [attempt_loop] in Hexec.
  rewrite Hrun1 in Hexec.
  destruct (1 =? default 1 (phase_max_attempts phase)) eqn:Hlast.
  { destruct (phase_failure_actions phase); discriminate. }
  apply Z.eqb_neq in Hlast.
  destruct (attempt_loop H _ _ phase _ params m1) as [[[]|exn'] m'] eqn:Hloop;
    [|discriminate].
  inversion Hexec; subst st e'; clear Hexec.
  apply (attempt_loop_ok H _ phase _ params _ (1 + 1)) in Hloop
    as (Htext & fails & Hall & Hc' & Hf'); [|reflexivity|lia].
  apply (_execute_steps_raise H _ _ _ _ _ Htext) in Hrun1
    as (done & failed & later & Hrun & Hc & Hf).
  cbn in Hc, Hf. cbn.
  split; [reflexivity|]. split.
  { rewrite Hf', Hf. discriminate. }
  exists done, failed, fails. rewrite Hc', Hf', Hc, Hf. repeat split.
  constructor; [exists later; exact Hrun | exact Hall].
Qed.

Lemma phase_retries_whole_sequence_witness :
  exists (st : WorkflowState Sample.host) (e' : Engine Sample.host),
    execute Sample.host "retry3" ∅ (new_engine Sample.host 0%nat) = (Ok st, e')
    /\ status st = WorkflowStatus.COMPLETED
    /\ steps_completed st = ["prepare"; "prepare"; "prepare"; "flaky"]
    /\ steps_failed st = ["flaky"; "flaky"]
    /\ tool_calls (trace e')
       = [("Bash", Some "prepare"); ("Bash", Some "flaky");
          ("Bash", Some "prepare"); ("Bash", Some "flaky");
          ("Bash", Some "prepare"); ("Bash", Some "flaky")].
Proof.
  pose (e := new_engine Sample.host 0%nat).
  pose (workflow := Sample.document [] (Some [Sample.flaky_phase 3]) None).
  pose (steps := default [] (phase_steps (Sample.flaky_phase 3))).
  pose (m0 := set_current_phase Sample.host "build" (started Sample.host "retry3" e)).
  pose (m1 := (_execute_steps Sample.host steps ∅ m0).2).
  pose (m2 := (_execute_steps Sample.host steps ∅ m1).2).
  pose (m3 := (_execute_steps Sample.host steps ∅ m2).2).
  pose (exn := {| exn_class := RuntimeError; exn_str := "Step failed: flaky - not yet" |}).
  destruct (phase_retries_whole_sequence Sample.host "retry3" ∅ e workflow
              (Sample.flaky_phase 3) exn exn m1 m2 m3)
    as (_ & _ & st & e' & Hexec & _ & Hstatus & Hc & Hf & _ & Htools).
  - reflexivity.
  - reflexivity.
  - reflexivity.
  - reflexivity.
  - vm_compute. reflexivity.
  - vm_compute. reflexivity.
  - vm_compute. reflexivity.
  - exists st, e'. split; [exact Hexec|]. split; [exact Hstatus|].
    split; [rewrite Hc; vm_compute; reflexivity|].
    split; [rewrite Hf; vm_compute; reflexivity|].
    rewrite Htools. vm_compute. reflexivity.
Defined.

Lemma retried_steps_are_recorded_again_witness :
  exists (st : WorkflowState Sample.host),
    (execute Sample.host "retry3" ∅ (new_engine Sample.host 0%nat)).1 = Ok st
    /\ status st = WorkflowStatus.COMPLETED
    /\ steps_failed st <> [].
Proof.
  pose (e := new_engine Sample.host 0%nat).
  pose (workflow := Sample.document [] (Some [Sample.flaky_phase 3]) None).
  pose (steps := default [] (phase_steps (Sample.flaky_phase 3))).
  pose (m0 := set_current_phase Sample.host "build" (started Sample.host "retry3" e)).
  pose (exn := {| exn_class := RuntimeError; exn_str := "Step failed: flaky - not yet" |}).
  pose (r := execute Sample.host "retry3" ∅ e).
  pose (st := m_state (set_end_time Sample.host
                         (set_status Sample.host WorkflowStatus.COMPLETED
                            (attempt_loop Sample.host [1; 2; 3] 3 (Sample.flaky_phase 3)
                               steps ∅ m0).2))).
  destruct (retried_steps_are_recorded_again Sample.host "retry3" ∅ e workflow
              (Sample.flaky_phase 3) exn (_execute_steps Sample.host steps ∅ m0).2 st r.2)
    as (Hstatus & Hfailed & _).
  - reflexivity.
  - reflexivity.
  - vm_compute. discriminate.
  - vm_compute. reflexivity.
  - vm_compute. reflexivity.
  - exists st. split; [vm_compute; reflexivity|]. split; assumption.
Defined.

(** * Validation *)

Section Validation.
Context (H : Host).

(** What [_execute_step] returns when the handler has returned [result]. *)
Lemma _execute_step_validated (step : Step) (params : gmap string string)
    (m m' : Machine H) (result : ExecutionResult) :
  call_handler H step params (action_of step) m = (Ok result, m') ->
  _execute_step H step params m
  = match step_validation step with
    | Some validation =>
        match _validate_step_result result validation with
        | Ok _ => (result, m')
        | Raise e => (mkResult StepStatus.FAILED None (Some (exn_str e)) None, m')
        end
    | None => (result, m')
    end.
Proof.
  intros Hc. unfold _execute_step, try_step. rewrite Hc.
  destruct (step_validation step) as [validation|]; [|reflexivity].
  destruct (_validate_step_result result validation); reflexivity.
Qed.

(** The handler call of a [Bash] step whose command ends. *)
Lemma call_handler_bash (step : Step) (params : gmap string string) (m : Machine H)
    (returncode : Z) (stdout stderr : string) (w' : World H) :
  step_tool step = Some "Bash" ->
  subprocess_run H (bash_command step params) (Some (bash_timeout step)) (m_world m)
  = (Completed returncode stdout stderr, w') ->
  call_handler H step params (action_of step) m
  = (Ok (mkResult (if returncode =? 0 then StepStatus.SUCCESS else StepStatus.FAILED)
           (Some stdout) (if negb (returncode =? 0) then Some stderr else None)
           (Some returncode)),
     with_world H w' (emit H (EvTool "Bash" (action_of step)) m)).
Proof.
  intros Htool Hrun. unfold call_handler, _execute_bash_step.
  rewrite Htool. cbn [tool_is]. change (String.eqb "Bash" "Bash") with true.
  cbv iota. rewrite Hrun. reflexivity.
Qed.

(** A rule that the result violates makes the validation raise, with a
    message of its own. *)
Lemma validation_violated (result : ExecutionResult) (validation : list string) :
  ("exit_code_equals_0" ∈ validation /\ result_exit_code result <> Some 0)
  \/ ("no_syntax_errors" ∈ validation /\ mentions_error (result_error result) = true) ->
  exists exn,
    _validate_step_result result validation = Raise exn
    /\ exn_class exn = ValueError
    /\ String.prefix "Validation failed: " (exn_str exn) = true.
Proof.
  induction validation as [|rule rules IH]; intros Hv.
  { destruct Hv as [[Hin _]|[Hin _]]; inversion Hin. }
  cbn [_validate_step_result].
  destruct (String.eqb rule "exit_code_equals_0") eqn:He.
  - destruct (decide (result_exit_code result = Some 0)) as [Hz|Hz].
    + rewrite bool_decide_eq_true_2 by exact Hz. cbn [negb]. apply IH.
      apply String.eqb_eq in He. subst rule.
      destruct Hv as [[_ Hne]|[Hin Hm]]; [contradiction|].
      right. split; [|exact Hm].
      apply elem_of_cons in Hin as [Heq|Hin]; [discriminate | exact Hin].
    + rewrite bool_decide_eq_false_2 by exact Hz. cbn [negb].
      eexists. repeat split.
  - apply String.eqb_neq in He.
    destruct (String.eqb rule "no_syntax_errors") eqn:Hs.
    + unfold mentions_error in *.
      destruct (result_error result) as [[|c err]|] eqn:Herr.
      * apply IH. destruct Hv as [[Hin Hne]|[_ Hm]]; [|discriminate].
        left. split; [|exact Hne].
        apply elem_of_cons in Hin as [Heq|Hin]; [congruence | exact Hin].
      * destruct (contains "syntax" (lower (String c err))
                  || contains "error" (lower (String c err))) eqn:Hm'.
        -- eexists. repeat split.
        -- apply IH. destruct Hv as [[Hin Hne]|[_ Hm]]; [|discriminate].
           left. split; [|exact Hne].
           apply elem_of_cons in Hin as [Heq|Hin]; [congruence | exact Hin].
      * apply IH. destruct Hv as [[Hin Hne]|[_ Hm]]; [|discriminate].
        left. split; [|exact Hne].
        apply elem_of_cons in Hin as [Heq|Hin]; [congruence | exact Hin].
    + apply String.eqb_neq in Hs. apply IH.
      destruct Hv as [[Hin Hne]|[Hin Hm]].
      * left. split; [|exact Hne].
        apply elem_of_cons in Hin as [Heq|Hin]; [congruence | exact Hin].
      * right. split; [|exact Hm].
        apply elem_of_cons in Hin as [Heq|Hin]; [congruence | exact Hin].
Qed.

End Validation.

(** C4: the workflow of one phase, attempted once, whose step A runs
    ["true"] and ends with exit code 0 and whose step B runs ["exit 1"]
    under the rule [exit_code_equals_0] and ends with exit code 1, fails
    with A completed and B failed, and the error that ends it is the
    message of the rule.  In general a rule that the result of the
    handler violates turns the result of the step into a failed one
    that carries the message of the rule, also when the handler had
    reported a success; and no rule turns a result that is not a success
    into a success. *)
Theorem two_step_workflow_fails_at_b (H : Host) (name a b : string)
    (params : gmap string string) (e : Engine H)
    (out_a err_a out_b err_b : string) (w1 w2 : World H) :
  load_workflow H name (world e) = Ok (Sample.two_steps a b) ->
  subprocess_run H "true" (Some 120) (world e) = (Completed 0 out_a err_a, w1) ->
  subprocess_run H "exit 1" (Some 120) w1 = (Completed 1 out_b err_b, w2) ->
  (exists (st : WorkflowState H) (e' : Engine H),
      execute H name params e
      = (Raise {| exn_class := RuntimeError;
                  exn_str := "Step failed: " +:+ b
                             +:+ " - Validation failed: exit code was 1, expected 0" |},
         e')
      /\ state e' = Some st
      /\ status st = WorkflowStatus.FAILED
      /\ steps_completed st = [a]
      /\ steps_failed st = [b])
  /\ (forall (step : Step) (validation : list string) (m m' : Machine H)
        (result : ExecutionResult),
        call_handler H step params (action_of step) m = (Ok result, m') ->
        step_validation step = Some validation ->
        ("exit_code_equals_0" ∈ validation /\ result_exit_code result <> Some 0)
        \/ ("no_syntax_errors" ∈ validation
            /\ mentions_error (result_error result) = true) ->
        exists message,
          _execute_step H step params m
          = (mkResult StepStatus.FAILED None (Some message) None, m')
          /\ String.prefix "Validation failed: " message = true)
  /\ (forall (step : Step) (validation : list string) (m m' : Machine H)
        (result : ExecutionResult) (exn : Exn),
        call_handler H step params (action_of step) m = (Ok result, m') ->
        step_validation step = Some validation ->
        _validate_step_result result validation = Raise exn ->
        result_status (_execute_step H step params m).1 = StepStatus.FAILED)
  /\ (forall (step : Step) (m m' : Machine H) (result : ExecutionResult),
        call_handler H step params (action_of step) m = (Ok result, m') ->
        result_status result <> StepStatus.SUCCESS ->
        result_status (_execute_step H step params m).1 <> StepStatus.SUCCESS).
Proof.
  intros Hload Htrue Hexit. split; [|split; [|split]].
  - rewrite (execute_one_phase H name params e (Sample.two_steps a b)
               (Sample.phase_of "only" (Some 1)
                  [Sample.shell_step a "true" None None;
                   Sample.shell_step b "exit 1" None (Some ["exit_code_equals_0"])])
               Hload eq_refl eq_refl).
    change (range 1 (default 1 (phase_max_attempts (Sample.phase_of "only" (Some 1) _)) + 1))
      with [1].
    cbn [attempt_loop Sample.phase_of phase_steps phase_max_attempts phase_name
         phase_failure_actions default from_option id].
    set (m0 := set_current_phase H "only" (started H name e)).
    cbn [_execute_steps].
    assert (Hcheck : forall s n c v,
               check_condition H (Sample.shell_step n c None v) s = Ok false)
      by reflexivity.
    rewrite !Hcheck.
    rewrite (_execute_step_validated H (Sample.shell_step a "true" None None) params m0 _ _
               (call_handler_bash H (Sample.shell_step a "true" None None) params m0
                  0 out_a err_a w1 eq_refl Htrue)).
    cbn [step_validation Sample.shell_step result_status mkResult Z.eqb bool_decide
         decide_rel].
    rewrite bool_decide_eq_true_2 by reflexivity.
    set (m1 := append_completed H _ _).
    rewrite (_execute_step_validated H
               (Sample.shell_step b "exit 1" None (Some ["exit_code_equals_0"])) params m1 _ _
               (call_handler_bash H
                  (Sample.shell_step b "exit 1" None (Some ["exit_code_equals_0"]))
                  params m1 1 out_b err_b w2 eq_refl Hexit)).
    cbn. eexists _, _. split; [reflexivity|]. cbn. repeat split.
  - intros step validation m m' result Hc Hv Hviolated.
    rewrite (_execute_step_validated H step params m m' result Hc), Hv.
    destruct (validation_violated result validation Hviolated)
      as (exn & -> & _ & Hprefix).
    exists (exn_str exn). split; [reflexivity | exact Hprefix].
  - intros step validation m m' result exn Hc Hv Hraise.
    rewrite (_execute_step_validated H step params m m' result Hc), Hv, Hraise.
    reflexivity.
  - intros step m m' result Hc Hns.
    rewrite (_execute_step_validated H step params m m' result Hc).
    destruct (step_validation step) as [validation|]; [|exact Hns].
    destruct (_validate_step_result result validation); [exact Hns | discriminate].
Qed.

Lemma two_step_workflow_fails_at_b_witness :
  (exists (st : WorkflowState Sample.host) (e' : Engine Sample.host),
      execute Sample.host "two_steps" ∅ (new_engine Sample.host 0%nat)
      = (Raise {| exn_class := RuntimeError;
                  exn_str := "Step failed: B - Validation failed: exit code was 1, expected 0" |},
         e')
      /\ state e' = Some st
      /\ status st = WorkflowStatus.FAILED
      /\ steps_completed st = ["A"]
      /\ steps_failed st = ["B"])
  /\ result_status
       (_execute_step Sample.host
          {| step_action := Some "search"; step_name := None; step_tool := Some "Grep";
             step_params := None; step_condition := None;
             step_validation := Some ["exit_code_equals_0"] |}
          ∅ (started Sample.host "sample" (new_engine Sample.host 0%nat))).1
     = StepStatus.FAILED.
Proof.
  destruct (two_step_workflow_fails_at_b Sample.host "two_steps" "A" "B" ∅
              (new_engine Sample.host 0%nat) "" "" "" "" 0%nat 0%nat
              eq_refl eq_refl eq_refl)
    as (Hrun & Hviolated & _ & _).
  split; [exact Hrun|].
  destruct (Hviolated
              {| step_action := Some "search"; step_name := None; step_tool := Some "Grep";
                 step_params := None; step_condition := None;
                 step_validation := Some ["exit_code_equals_0"] |}
              ["exit_code_equals_0"]
              (started Sample.host "sample" (new_engine Sample.host 0%nat))
              _ _ eq_refl eq_refl)
    as (message & -> & _).
  - left. split; [left | discriminate].
  - reflexivity.
Defined.

(** * The life cycle of an execution *)

Section LifeCycle.
Context (H : Host).

(** [load_workflow] raises in the first two cases of [EarlyFailure]. *)
Lemma load_workflow_not_found (name : string) (w : World H) :
  path_exists H (workflow_path H name) w = false ->
  exists exn, load_workflow H name w = Raise exn /\ exn_class exn = FileNotFoundError.
Proof.
  intros Hp. unfold load_workflow. rewrite Hp. eexists. split; reflexivity.
Qed.

Lemma _validate_workflow_structure_invalid (workflow : Workflow) :
  wf_name workflow = None \/ wf_description workflow = None
  \/ wf_type workflow <> Some "workflow" ->
  exists exn, _validate_workflow_structure workflow = Raise exn
              /\ exn_class exn = ValueError.
Proof.
  unfold _validate_workflow_structure, has_field. cbn.
  destruct (wf_name workflow) as [n|], (wf_description workflow) as [d|],
    (wf_type workflow) as [t|]; cbn; intros Hbad;
    try (eexists; split; reflexivity).
  destruct (String.eqb t "workflow") eqn:Ht; cbn.
  - apply String.eqb_eq in Ht. subst t. exfalso.
    destruct Hbad as [Hb|[Hb|Hb]]; [discriminate | discriminate | now apply Hb].
  - eexists; split; reflexivity.
Qed.

Lemma load_workflow_invalid (name : string) (w : World H) (workflow : Workflow) :
  path_exists H (workflow_path H name) w = true ->
  safe_load H (workflow_path H name) w = Ok workflow ->
  wf_name workflow = None \/ wf_description workflow = None
  \/ wf_type workflow <> Some "workflow" ->
  exists exn, load_workflow H name w = Raise exn /\ exn_class exn = ValueError.
Proof.
  intros Hp Hl Hbad. unfold load_workflow. rewrite Hp, Hl. cbn.
  destruct (_validate_workflow_structure_invalid workflow Hbad) as (exn & -> & Hc).
  now exists exn.
Qed.

Lemma _validate_inputs_missing (input_spec : InputSpec) (params : gmap string string)
    (param_name : string) :
  param_name ∈ default [] (inputs_required input_spec) ->
  params !! param_name = None ->
  exists exn, _validate_inputs input_spec params = Raise exn /\ exn_class exn = ValueError.
Proof.
  intros Hin Hnone. unfold _validate_inputs.
  destruct (List.find _ (default [] (inputs_required input_spec))) as [n|] eqn:Hf.
  - eexists; split; reflexivity.
  - exfalso. apply list_elem_of_In in Hin.
    pose proof (List.find_none _ _ Hf _ Hin) as Hn. cbn in Hn.
    rewrite Hnone in Hn. rewrite bool_decide_eq_false_2 in Hn; [discriminate|].
    intros [? ?]; discriminate.
Qed.

(** [execute] when the inputs are rejected: the state is created, set
    running, then failed; nothing else happens. *)
Lemma execute_inputs_rejected (name : string) (params : gmap string string)
    (e : Engine H) (workflow : Workflow) (exn : Exn) :
  load_workflow H name (world e) = Ok workflow ->
  _validate_inputs (default {| inputs_required := None |} (wf_inputs workflow)) params
  = Raise exn ->
  execute H name params e
  = (Raise exn,
     engine_of H (set_end_time H (set_status H WorkflowStatus.FAILED (started H name e)))).
Proof.
  intros Hload Hin. unfold execute, run_workflow. rewrite Hload, Hin. reflexivity.
Qed.

End LifeCycle.

(** C1, as the specification states it, fails: a document with both keys
    is not rejected at all. *)
Lemma both_phases_and_steps_is_executed :
  ~ (forall (H : Host) (name : string) (params : gmap string string) (w : World H)
       (workflow : Workflow),
       load_workflow H name w = Ok workflow ->
       (is_Some (wf_phases workflow) <-> is_Some (wf_steps workflow)) ->
       exists exn, execute H name params (new_engine H w) = (Raise exn, new_engine H w)).
Proof.
  intros Hclaim.
  destruct (Hclaim Sample.host "both" ∅ 0%nat _ eq_refl) as (exn & Hexec).
  - split; intros _; eexists; reflexivity.
  - vm_compute in Hexec. discriminate.
Qed.

(** C1 (amended): a document with neither [phases] nor [steps] is rejected
    by [execute] with a [ValueError] before any step runs, but after the
    state has been set running: it ends failed; a document with both keys
    is run as if it had no [steps]: its phases are executed. *)
Theorem neither_fails_after_running_both_runs_phases (H : Host) (name : string)
    (params : gmap string string) (e : Engine H) (workflow : Workflow) :
  load_workflow H name (world e) = Ok workflow ->
  wf_phases workflow = None ->
  wf_steps workflow = None ->
  (exists (exn : Exn) (st : WorkflowState H) (e' : Engine H),
      execute H name params e = (Raise exn, e')
      /\ exn_class exn = ValueError
      /\ state e' = Some st
      /\ status st = WorkflowStatus.FAILED
      /\ steps_completed st = [] /\ steps_failed st = []
      /\ statuses (trace e')
         = (statuses (trace e)
            ++ [WorkflowStatus.NOT_STARTED; WorkflowStatus.RUNNING;
                WorkflowStatus.FAILED])%list
      /\ tool_calls (trace e') = tool_calls (trace e))
  /\ (forall (both : Workflow) (m : Machine H),
        is_Some (wf_phases both) -> is_Some (wf_steps both) ->
        run_workflow H both params m = run_workflow H (without_steps both) params m).
Proof.
  intros Hload Hphases Hsteps. split.
  - unfold execute, run_workflow. rewrite Hload, Hphases, Hsteps.
    destruct (_validate_inputs _ params) as [[]|exn] eqn:Hin.
    + eexists _, _, _. split; [reflexivity|]. cbn.
      rewrite !statuses_emit_status, !tool_calls_emit_status, <- !app_assoc.
      repeat split.
    + eexists exn, _, _. split; [reflexivity|]. cbn.
      rewrite !statuses_emit_status, !tool_calls_emit_status, <- !app_assoc.
      repeat split.
      unfold _validate_inputs in Hin.
      destruct (List.find _ _); inversion Hin; reflexivity.
  - intros both m [phases Hp] [steps Hs]. unfold run_workflow, without_steps. cbn.
    rewrite Hp. reflexivity.
Qed.

Lemma neither_fails_after_running_both_runs_phases_witness :
  exists (exn : Exn) (st : WorkflowState Sample.host) (e' : Engine Sample.host),
    execute Sample.host "neither" ∅ (new_engine Sample.host 0%nat) = (Raise exn, e')
    /\ exn_str exn = "Workflow must have either 'phases' or 'steps'"
    /\ status st = WorkflowStatus.FAILED
    /\ statuses (trace e')
       = [WorkflowStatus.NOT_STARTED; WorkflowStatus.RUNNING; WorkflowStatus.FAILED].
Proof.
  destruct (neither_fails_after_running_both_runs_phases Sample.host "neither" ∅
              (new_engine Sample.host 0%nat) (Sample.document [] None None)
              eq_refl eq_refl eq_refl)
    as ((exn & st & e' & Hexec & _ & _ & Hstatus & _ & _ & Htrace & _) & _).
  exists exn, st, e'. split; [exact Hexec|].
  split; [|split; [exact Hstatus | exact Htrace]].
  vm_compute in Hexec. inversion Hexec. reflexivity.
Defined.

(** C7, as the specification states it, fails where the definition is not
    loaded: [execute] raises before it creates a [WorkflowState], and the
    engine is left without a state, hence without a [steps_completed]. *)
Lemma invalid_definition_leaves_no_state :
  ~ (forall (H : Host) (name : string) (params : gmap string string) (w : World H),
       EarlyFailure H name params w ->
       exists (exn : Exn) (st : WorkflowState H) (e' : Engine H),
         execute H name params (new_engine H w) = (Raise exn, e')
         /\ state e' = Some st
         /\ steps_completed st = []).
Proof.
  intros Hclaim.
  destruct (Hclaim Sample.host "untyped" ∅ 0%nat) as (exn & st & e' & Hexec & Hst & _).
  - eapply DefinitionInvalid; [reflexivity | reflexivity |].
    right; right. discriminate.
  - vm_compute in Hexec. inversion Hexec; subst e'. discriminate.
Qed.

(** C7 (amended): an execution that fails because the definition is not
    found, because it lacks [name], [description] or a [type] equal to
    [workflow], or because a required input is absent, raises without
    calling a tool handler and without a change to the world.  In the
    first two cases the engine is left as it was: no [WorkflowState] is
    created.  In the third the state exists, is failed, and its
    [steps_completed] and [steps_failed] are empty. *)
Theorem early_failure_runs_no_step (H : Host) (name : string)
    (params : gmap string string) (e : Engine H) :
  EarlyFailure H name params (world e) ->
  exists (exn : Exn) (e' : Engine H),
    execute H name params e = (Raise exn, e')
    /\ world e' = world e
    /\ tool_calls (trace e') = tool_calls (trace e)
    /\ ((load_workflow H name (world e) = Raise exn /\ e' = e)
        \/ (exists (workflow : Workflow) (st : WorkflowState H),
              load_workflow H name (world e) = Ok workflow
              /\ state e' = Some st
              /\ status st = WorkflowStatus.FAILED
              /\ steps_completed st = []
              /\ steps_failed st = [])).
Proof.
  intros [Hnf | workflow Hp Hl Hbad | workflow param_name Hload Hin Hnone].
  - destruct (load_workflow_not_found H name (world e) Hnf) as (exn & Hraise & _).
    exists exn, e. unfold execute. rewrite Hraise. repeat split. now left.
  - destruct (load_workflow_invalid H name (world e) workflow Hp Hl Hbad)
      as (exn & Hraise & _).
    exists exn, e. unfold execute. rewrite Hraise. repeat split. now left.
  - destruct (_validate_inputs_missing _ params param_name Hin Hnone) as (exn & Hraise & _).
    exists exn. eexists.
    rewrite (execute_inputs_rejected H name params e workflow exn Hload Hraise).
    split; [reflexivity|]. cbn. rewrite !tool_calls_emit_status.
    split; [reflexivity|]. split; [reflexivity|].
    right. exists workflow. eexists. repeat split. exact Hload.
Qed.

Lemma early_failure_runs_no_step_witness :
  exists (exn : Exn) (e' : Engine Sample.host),
    execute Sample.host "needs_input" (<["other" := "x"]> ∅) (new_engine Sample.host 0%nat)
    = (Raise exn, e')
    /\ tool_calls (trace e') = []
    /\ exists st : WorkflowState Sample.host,
         state e' = Some st /\ steps_completed st = [] /\ steps_failed st = [].
Proof.
  destruct (early_failure_runs_no_step Sample.host "needs_input" (<["other" := "x"]> ∅)
              (new_engine Sample.host 0%nat))
    as (exn & e' & Hexec & _ & Htools & [[Hraise _] | Hstate]).
  - eapply (MissingInput Sample.host "needs_input" _ _ _ "task_id").
    + reflexivity.
    + vm_compute. left.
    + reflexivity.
  - vm_compute in Hraise. discriminate.
  - destruct Hstate as (workflow & st & _ & Hst & _ & Hc & Hf).
    exists exn, e'. split; [exact Hexec|]. split; [exact Htools|].
    exists st. repeat split; assumption.
Defined.

(** C8, as the specification states it, fails where [execute] raises
    while it loads the definition: no state is there to be failed. *)
Lemma load_failure_has_no_failed_state :
  ~ (forall (H : Host) (name : string) (params : gmap string string) (e : Engine H)
       (exn : Exn) (e' : Engine H),
       execute H name params e = (Raise exn, e') ->
       exists st : WorkflowState H,
         state e' = Some st /\ status st = WorkflowStatus.FAILED
         /\ is_Some (end_time st)).
Proof.
  intros Hclaim.
  destruct (Hclaim Sample.host "absent" ∅ (new_engine Sample.host 0%nat)
              {| exn_class := FileNotFoundError;
                 exn_str := "Workflow not found: workflows/absent.yaml" |}
              (new_engine Sample.host 0%nat) eq_refl)
    as (st & Hst & _).
  discriminate.
Qed.

(** C8 (amended): an execution that has loaded its definition takes the
    status of its state through [not_started], [running] and then one of
    [completed] and [failed], in this order and with nothing after: it
    is completed with an end time when [execute] returns and failed with
    an end time when [execute] raises.  An execution that raises while it
    loads the definition creates no state and leaves the engine as it
    was.  So an engine whose state is not running before [execute] has no
    running state after it. *)
Theorem status_moves_forward_to_a_terminal_state (H : Host) (name : string)
    (params : gmap string string) (e : Engine H) :
  match execute H name params e with
  | (Ok st, e') =>
      state e' = Some st
      /\ status st = WorkflowStatus.COMPLETED
      /\ is_Some (end_time st)
      /\ statuses (trace e')
         = (statuses (trace e)
            ++ [WorkflowStatus.NOT_STARTED; WorkflowStatus.RUNNING;
                WorkflowStatus.COMPLETED])%list
  | (Raise exn, e') =>
      (load_workflow H name (world e) = Raise exn /\ e' = e)
      \/ (exists st : WorkflowState H,
            state e' = Some st
            /\ status st = WorkflowStatus.FAILED
            /\ is_Some (end_time st)
            /\ statuses (trace e')
               = (statuses (trace e)
                  ++ [WorkflowStatus.NOT_STARTED; WorkflowStatus.RUNNING;
                      WorkflowStatus.FAILED])%list)
  end
  /\ ((forall st0, state e = Some st0 -> status st0 <> WorkflowStatus.RUNNING) ->
      forall st', state (execute H name params e).2 = Some st' ->
                  status st' <> WorkflowStatus.RUNNING).
Proof.
  unfold execute.
  destruct (load_workflow H name (world e)) as [workflow|exn] eqn:Hload.
  - destruct (run_workflow H workflow params (started H name e)) as [[[]|exn] m'] eqn:Hrun;
      apply run_workflow_steady in Hrun as (_ & _ & _ & _ & Htrace);
      cbn in Htrace; rewrite !statuses_emit_status in Htrace.
    + split.
      * cbn. rewrite statuses_emit_status, Htrace, <- !app_assoc. repeat split. eauto.
      * intros _ st' Hst'. cbn in Hst'. inversion Hst'; subst st'. cbn. discriminate.
    + split.
      * right. eexists. cbn. rewrite statuses_emit_status, Htrace, <- !app_assoc.
        repeat split. eauto.
      * intros _ st' Hst'. cbn in Hst'. inversion Hst'; subst st'. cbn. discriminate.
  - split.
    + left. split; reflexivity.
    + intros Hinv st' Hst'. cbn in Hst'. now apply Hinv.
Qed.

(** * Further properties of the loader *)

Section LoaderFacts.
Context (H : Host).

(** The structure check as a decision table: the first of [name],
    [description] and [type] that is absent is reported, and a [type]
    other than [workflow] only when all three are there. *)
Theorem structure_check_reports_first_missing_field (workflow : Workflow) :
  _validate_workflow_structure workflow
  = match wf_name workflow, wf_description workflow, wf_type workflow with
    | None, _, _ =>
        Raise {| exn_class := ValueError; exn_str := "Missing required field: name" |}
    | Some _, None, _ =>
        Raise {| exn_class := ValueError;
                 exn_str := "Missing required field: description" |}
    | Some _, Some _, None =>
        Raise {| exn_class := ValueError; exn_str := "Missing required field: type" |}
    | Some _, Some _, Some type =>
        if String.eqb type "workflow" then Ok tt
        else Raise {| exn_class := ValueError;
                      exn_str := "Invalid type: " +:+ type +:+ " (expected 'workflow')" |}
    end.
Proof.
  unfold _validate_workflow_structure, has_field. cbn.
  destruct (wf_name workflow), (wf_description workflow), (wf_type workflow) as [t|];
    cbn; try reflexivity.
  destruct (String.eqb t "workflow"); reflexivity.
Qed.

(** The structure check passes exactly the documents that have a [name],
    a [description] and the [type] [workflow]. *)
Theorem structure_check_passes_iff (workflow : Workflow) :
  _validate_workflow_structure workflow = Ok tt
  <-> is_Some (wf_name workflow) /\ is_Some (wf_description workflow)
      /\ wf_type workflow = Some "workflow".
Proof.
  unfold _validate_workflow_structure, has_field. cbn.
  destruct (wf_name workflow) as [n|], (wf_description workflow) as [d|],
    (wf_type workflow) as [t|]; cbn;
    try (split; [discriminate | intros ([? ?] & [? ?] & ?); discriminate]).
  destruct (String.eqb t "workflow") eqn:Ht; cbn.
  - apply String.eqb_eq in Ht. subst t. split; [|reflexivity].
    intros _. repeat split; eauto.
  - apply String.eqb_neq in Ht. split; [discriminate|].
    intros (_ & _ & Heq). congruence.
Qed.


(** A definition that [load_workflow] returns was read from a file that
    exists and has passed the structure check. *)
Theorem loaded_workflow_is_valid (name : string) (w : World H) (workflow : Workflow) :
  load_workflow H name w = Ok workflow ->
  path_exists H (workflow_path H name) w = true
  /\ safe_load H (workflow_path H name) w = Ok workflow
  /\ is_Some (wf_name workflow) /\ is_Some (wf_description workflow)
  /\ wf_type workflow = Some "workflow".
Proof.
  unfold load_workflow. intros Hload.
  destruct (path_exists H (workflow_path H name) w); [|discriminate]. cbn in Hload.
  destruct (safe_load H (workflow_path H name) w) as [wf|]; [|discriminate].
  destruct (_validate_workflow_structure wf) as [[]|] eqn:Hv; [|discriminate].
  inversion Hload; subst wf. clear Hload.
  unfold _validate_workflow_structure, has_field in Hv. cbn in Hv.
  destruct (wf_name workflow), (wf_description workflow), (wf_type workflow) as [t|];
    cbn in Hv; try discriminate.
  destruct (String.eqb t "workflow") eqn:Ht; [|discriminate].
  apply String.eqb_eq in Ht. subst t. repeat split; eauto.
Qed.

Lemma find_first {A : Type} (f : A -> bool) (l : list A) (x : A) :
  List.find f l = Some x ->
  exists pre post, l = (pre ++ x :: post)%list
                   /\ List.Forall (fun y => f y = false) pre /\ f x = true.
Proof.
  induction l as [|y l IH]; cbn; [discriminate|].
  destruct (f y) eqn:Hy.
  - intros Heq; inversion Heq; subst y. exists [], l. repeat split; [constructor | exact Hy].
  - intros Hf. destruct (IH Hf) as (pre & post & -> & Hall & Hx).
    exists (y :: pre), post. repeat split; [constructor; assumption | exact Hx].
Qed.

(** The inputs pass exactly when every required name is a key of
    [params]; without a [required] list they always pass. *)
Theorem inputs_pass_iff (input_spec : InputSpec) (params : gmap string string) :
  _validate_inputs input_spec params = Ok tt
  <-> forall param_name, param_name ∈ default [] (inputs_required input_spec) ->
                         is_Some (params !! param_name).
Proof.
  unfold _validate_inputs.
  destruct (List.find _ (default [] (inputs_required input_spec))) as [n|] eqn:Hf.
  - split; [discriminate|]. intros Hall. exfalso.
    apply List.find_some in Hf as [Hin Hn]. apply list_elem_of_In, Hall in Hin.
    rewrite bool_decide_eq_true_2 in Hn by exact Hin. discriminate.
  - split; [|reflexivity]. intros _ n Hin. apply list_elem_of_In in Hin.
    pose proof (List.find_none _ _ Hf _ Hin) as Hn. cbn in Hn.
    apply negb_false_iff, bool_decide_eq_true_1 in Hn. exact Hn.
Qed.

(** When the inputs are rejected, the parameter that the error names is
    the first required name, in the order of the list, that [params]
    lacks. *)
Theorem inputs_report_first_missing (input_spec : InputSpec)
    (params : gmap string string) (exn : Exn) :
  _validate_inputs input_spec params = Raise exn ->
  exists (present : list string) (param_name : string) (later : list string),
    default [] (inputs_required input_spec) = (present ++ param_name :: later)%list
    /\ List.Forall (fun n => is_Some (params !! n)) present
    /\ params !! param_name = None
    /\ exn = {| exn_class := ValueError;
                exn_str := "Missing required parameter: " +:+ param_name |}.
Proof.
  unfold _validate_inputs.
  destruct (List.find _ (default [] (inputs_required input_spec))) as [n|] eqn:Hf;
    [|discriminate].
  intros Heq; inversion Heq; subst exn; clear Heq.
  apply find_first in Hf as (pre & post & Hl & Hall & Hn).
  exists pre, n, post. repeat split; [exact Hl | |].
  - eapply List.Forall_impl; [|exact Hall]. cbn. intros a Ha.
    apply negb_false_iff, bool_decide_eq_true_1 in Ha. exact Ha.
  - apply negb_true_iff, bool_decide_eq_false_1 in Hn.
    destruct (params !! n) eqn:Hp; [|reflexivity]. exfalso. apply Hn. eauto.
Qed.

End LoaderFacts.

Lemma loaded_workflow_is_valid_witness :
  path_exists Sample.host (workflow_path Sample.host "two_steps") 0%nat = true
  /\ safe_load Sample.host (workflow_path Sample.host "two_steps") 0%nat
     = Ok (Sample.two_steps "A" "B")
  /\ is_Some (wf_name (Sample.two_steps "A" "B"))
  /\ is_Some (wf_description (Sample.two_steps "A" "B"))
  /\ wf_type (Sample.two_steps "A" "B") = Some "workflow".
Proof.
  apply (loaded_workflow_is_valid Sample.host "two_steps" 0%nat (Sample.two_steps "A" "B")).
  reflexivity.
Defined.

Lemma inputs_report_first_missing_witness :
  exists (present : list string) (param_name : string) (later : list string),
    ["repo"; "task_id"; "branch"] = (present ++ param_name :: later)%list
    /\ List.Forall (fun n => is_Some ((<["repo" := "r"]> ∅ : gmap string string) !! n)) present
    /\ (<["repo" := "r"]> ∅ : gmap string string) !! param_name = None
    /\ {| exn_class := ValueError; exn_str := "Missing required parameter: task_id" |}
       = {| exn_class := ValueError;
            exn_str := "Missing required parameter: " +:+ param_name |}.
Proof.
  apply (inputs_report_first_missing
           {| inputs_required := Some ["repo"; "task_id"; "branch"] |}
           (<["repo" := "r"]> ∅)).
  reflexivity.
Defined.

(** * Further properties of parameter substitution *)

Section SubstMore.

Lemma re_sub_from_agree (p q : gmap string string) (text : string) :
  forall skip : nat,
    (forall k, k ∈ placeholders_from skip text -> p !! k = q !! k) ->
    re_sub_from (replace p) skip text = re_sub_from (replace q) skip text.
Proof.
  induction text as [|c rest IH]; intros skip Hk; [reflexivity|].
  destruct skip as [|n]; cbn [re_sub_from placeholders_from] in *.
  - destruct (match_placeholder (String c rest)) as [m|].
    + unfold replace at 1 3. rewrite (Hk (strip (group1 m))) by left.
      f_equal. apply IH. intros k Hin. apply Hk. now right.
    + f_equal. now apply IH.
  - now apply IH.
Qed.

(** The result of a substitution depends on [params] only through the
    parameters that the placeholders of the text name. *)
Theorem substitute_reads_only_named_params (text : string)
    (p q : gmap string string) :
  (forall k, k ∈ placeholders text -> p !! k = q !! k) ->
  _substitute_params text p = _substitute_params text q.
Proof. intros Hk. unfold _substitute_params, re_sub. now apply re_sub_from_agree. Qed.

(** Without parameters every text comes back as it is. *)
Theorem substitute_without_params_is_identity (text : string) :
  _substitute_params text ∅ = text.
Proof. apply substitute_settled. intros k _. apply lookup_empty. Qed.

Lemma clear_prefix (pre rest : string) :
  has_no "{" pre = true ->
  forall i k, (i < String.length pre)%nat -> ~ placeholder_at (pre +:+ rest) i k.
Proof.
  unfold has_no. induction pre as [|c pre IH]; intros Hno i k Hi; [cbn in Hi; lia|].
  cbn in Hno. apply andb_prop in Hno as [Hc Hno].
  destruct i as [|i].
  - intros (ws1 & ws2 & tail & Heq & _). rewrite drop_0 in Heq.
    cbn in Heq. inversion Heq; subst c. discriminate.
  - change (String c pre +:+ rest) with (String c (pre +:+ rest)).
    intros Hp. apply placeholder_at_cons in Hp.
    apply (IH Hno i k); [cbn in Hi; lia | exact Hp].
Qed.

(** In a text that has no brace before its first placeholder, the text
    before the placeholder is kept, the placeholder, with or without
    blanks around the name, is replaced by the value of the parameter, or
    stays as it was written when [params] has no such key, and the rest
    of the text is substituted in the same way. *)
Theorem substitute_placeholder_with_blanks (pre ws1 k ws2 rest : string)
    (params : gmap string string) :
  has_no "{" pre = true ->
  all_chars is_space ws1 = true -> is_name k = true -> all_chars is_space ws2 = true ->
  _substitute_params (pre +:+ "{{" +:+ ws1 +:+ k +:+ ws2 +:+ "}}" +:+ rest) params
  = pre +:+ default ("{{" +:+ ws1 +:+ k +:+ ws2 +:+ "}}") (params !! k)
    +:+ _substitute_params rest params.
Proof.
  intros Hno H1 Hk H2. apply substitute_leftmost; [|assumption..].
  intros i k' Hi. now apply clear_prefix.
Qed.

End SubstMore.

Lemma substitute_reads_only_named_params_witness :
  _substitute_params "cd {{ dir }}" (<["dir" := "src"]> (<["x" := "1"]> ∅))
  = _substitute_params "cd {{ dir }}" (<["dir" := "src"]> ∅).
Proof.
  apply substitute_reads_only_named_params.
  intros k Hin. vm_compute in Hin. apply list_elem_of_singleton in Hin as ->.
  reflexivity.
Defined.

Lemma substitute_placeholder_with_blanks_witness :
  _substitute_params
    ("see " +:+ "{{" +:+ "  " +:+ "task_id" +:+ " " +:+ "}}" +:+ "/{{ other }}")
    (<["task_id" := "T-7"]> ∅)
  = "see " +:+ default ("{{" +:+ "  " +:+ "task_id" +:+ " " +:+ "}}")
                 ((<["task_id" := "T-7"]> ∅ : gmap string string) !! "task_id")
    +:+ _substitute_params "/{{ other }}" (<["task_id" := "T-7"]> ∅).
Proof.
  apply (substitute_placeholder_with_blanks "see " "  " "task_id" " " "/{{ other }}"
           (<["task_id" := "T-7"]> ∅)); reflexivity.
Defined.

(** * Further properties of validation and of the handlers *)

Section ValidationFacts.
Context (H : Host).

(** A result passes its rules exactly when it has exit code 0 if
    [exit_code_equals_0] is among them and an error text without
    [syntax] and [error] if [no_syntax_errors] is among them: the order
    of the rules, their repetition and every other rule name are without
    effect. *)
Theorem validation_passes_iff (result : ExecutionResult) (validation : list string) :
  _validate_step_result result validation = Ok tt
  <-> ("exit_code_equals_0" ∈ validation -> result_exit_code result = Some 0)
      /\ ("no_syntax_errors" ∈ validation
          -> mentions_error (result_error result) = false).
Proof.
  induction validation as [|rule rules IH].
  - cbn. split; [|reflexivity]. intros _. split; intros Hin; inversion Hin.
  - cbn [_validate_step_result].
    destruct (String.eqb rule "exit_code_equals_0") eqn:He.
    + apply String.eqb_eq in He. subst rule.
      destruct (decide (result_exit_code result = Some 0)) as [Hz|Hz].
      * rewrite bool_decide_eq_true_2 by exact Hz. cbn [negb]. rewrite IH.
        split; intros [H1 H2]; split; auto.
        -- intros Hin. apply H2. apply elem_of_cons in Hin as [Hin|Hin];
             [discriminate | exact Hin].
        -- intros Hin. apply H2. now right.
      * rewrite bool_decide_eq_false_2 by exact Hz. cbn [negb].
        split; [discriminate|]. intros [H1 _]. exfalso. apply Hz, H1. left.
    + apply String.eqb_neq in He.
      assert (Hexit : "exit_code_equals_0" ∈ rule :: rules <-> "exit_code_equals_0" ∈ rules).
      { rewrite elem_of_cons. split; [intros [Heq|Hin]; [congruence | exact Hin]|].
        intros Hin; now right. }
      destruct (String.eqb rule "no_syntax_errors") eqn:Hs.
      * apply String.eqb_eq in Hs. subst rule. rewrite Hexit.
        unfold mentions_error.
        destruct (result_error result) as [[|c err]|].
        -- rewrite IH. split; intros [H1 H2]; split; auto.
        -- destruct (contains "syntax" (lower (String c err))
                     || contains "error" (lower (String c err))) eqn:Hm.
           ++ split; [discriminate|]. intros [_ H2]. exfalso.
              assert (Hin : "no_syntax_errors" ∈ "no_syntax_errors" :: rules) by left.
              specialize (H2 Hin). discriminate.
           ++ rewrite IH. unfold mentions_error. rewrite Hm.
              split; intros [H1 H2]; split; auto.
        -- rewrite IH. split; intros [H1 H2]; split; auto.
      * apply String.eqb_neq in Hs. rewrite Hexit, IH.
        split; intros [H1 H2]; split; auto.
        -- intros Hin. apply H2. apply elem_of_cons in Hin as [Hin|Hin];
             [congruence | exact Hin].
        -- intros Hin. apply H2. now right.
Qed.


Lemma validation_needs_exit_code (result : ExecutionResult) (validation : list string) :
  "exit_code_equals_0" ∈ validation ->
  result_exit_code result <> Some 0 ->
  exists exn, _validate_step_result result validation = Raise exn.
Proof.
  intros Hin Hne. induction validation as [|rule rules IH]; [inversion Hin|].
  cbn [_validate_step_result].
  destruct (String.eqb rule "exit_code_equals_0") eqn:He.
  - rewrite bool_decide_eq_false_2 by exact Hne. cbn. eauto.
  - apply String.eqb_neq in He.
    apply elem_of_cons in Hin as [Heq|Hin]; [congruence|].
    specialize (IH Hin).
    destruct (String.eqb rule "no_syntax_errors"); [|exact IH].
    destruct (result_error result) as [[|c err]|]; try exact IH.
    destruct (contains "syntax" (lower (String c err))
              || contains "error" (lower (String c err))); [eauto | exact IH].
Qed.

Lemma call_handler_without_exit_code (step : Step) (params : gmap string string)
    (action : option string) (m m' : Machine H) (result : ExecutionResult) :
  step_tool step <> Some "Bash" -> step_tool step <> Some "Grep" ->
  call_handler H step params action m = (Ok result, m') ->
  result_exit_code result = None.
Proof.
  intros Hb Hg. unfold call_handler.
  destruct (tool_is (step_tool step) "Bash") eqn:Eb.
  { exfalso. apply Hb. unfold tool_is in Eb. destruct (step_tool step); [|discriminate].
    apply String.eqb_eq in Eb. now subst. }
  destruct (tool_is (step_tool step) "Read") eqn:Er.
  { unfold _execute_read_step. intros Hc. repeat case_match; simplify_eq; reflexivity. }
  destruct (tool_is (step_tool step) "Grep") eqn:Eg.
  { exfalso. apply Hg. unfold tool_is in Eg. destruct (step_tool step); [|discriminate].
    apply String.eqb_eq in Eg. now subst. }
  unfold _execute_glob_step, _execute_write_step, _execute_edit_step.
  intros Hc. repeat case_match; simplify_eq; reflexivity.
Qed.

(** Only the [Bash] and [Grep] handlers set an exit code.  A step with
    any other tool, or with none, that declares the rule
    [exit_code_equals_0] therefore always fails. *)
Theorem exit_code_rule_fails_other_tools (step : Step) (params : gmap string string)
    (m : Machine H) (validation : list string) :
  step_tool step <> Some "Bash" -> step_tool step <> Some "Grep" ->
  step_validation step = Some validation ->
  "exit_code_equals_0" ∈ validation ->
  result_status (_execute_step H step params m).1 = StepStatus.FAILED.
Proof.
  intros Hb Hg Hv Hin. unfold _execute_step, try_step.
  destruct (call_handler H step params (action_of step) m) as [[result|exn] m'] eqn:Hc;
    [|reflexivity].
  rewrite Hv.
  destruct (validation_needs_exit_code result validation Hin) as (exn & ->);
    [|reflexivity].
  rewrite (call_handler_without_exit_code step params _ m m' result Hb Hg Hc).
  discriminate.
Qed.

(** A [Bash] step whose command ends with a non-zero exit code and whose
    first rule is [exit_code_equals_0] returns a result that only holds
    the message of the rule: the output, the error text and the exit
    code of the command are dropped. *)
Theorem violated_rule_replaces_result (step : Step) (params : gmap string string)
    (m : Machine H) (rules : list string) (returncode : Z) (stdout stderr : string)
    (w' : World H) :
  step_tool step = Some "Bash" ->
  step_validation step = Some ("exit_code_equals_0" :: rules) ->
  subprocess_run H (bash_command step params) (Some (bash_timeout step)) (m_world m)
  = (Completed returncode stdout stderr, w') ->
  returncode <> 0 ->
  _execute_step H step params m
  = (mkResult StepStatus.FAILED None
       (Some ("Validation failed: exit code was " +:+ str_int returncode
              +:+ ", expected 0")) None,
     with_world H w' (emit H (EvTool "Bash" (action_of step)) m)).
Proof.
  intros Htool Hv Hrun Hne.
  rewrite (_execute_step_validated H step params m _ _
             (call_handler_bash H step params m returncode stdout stderr w' Htool Hrun)).
  rewrite Hv. cbn [_validate_step_result].
  change (String.eqb "exit_code_equals_0" "exit_code_equals_0") with true.
  cbv iota. cbn [result_exit_code mkResult].
  rewrite bool_decide_eq_false_2 by congruence. reflexivity.
Qed.

(** A [Read] or [Glob] step without a [params] mapping fails with the
    text of the [KeyError], and neither a file nor a subprocess of the
    host is touched. *)
Theorem read_and_glob_need_params (step : Step) (params : gmap string string)
    (m : Machine H) :
  step_tool step = Some "Read" \/ step_tool step = Some "Glob" ->
  step_params step = None ->
  exists result m',
    _execute_step H step params m = (result, m')
    /\ result = mkResult StepStatus.FAILED None (Some "'params'") None
    /\ m_world m' = m_world m
    /\ m_state m' = m_state m.
Proof.
  intros [Htool|Htool] Hp; unfold _execute_step, try_step, call_handler,
    _execute_read_step, _execute_glob_step, params_item;
    rewrite Htool, Hp; cbn; eexists _, _; repeat split.
Qed.

(** A step whose tool is none of the six handler names, in their exact
    spelling, or that has no tool, is simulated: it succeeds and leaves
    the machine as it was. *)
Theorem unknown_tool_is_simulated (step : Step) (params : gmap string string)
    (m : Machine H) :
  step_tool step ∉ (Some <$> ["Bash"; "Read"; "Grep"; "Glob"; "Edit"; "Write"]) ->
  step_validation step = None ->
  _execute_step H step params m
  = (mkResult StepStatus.SUCCESS
       (Some ("Action '" +:+ str_opt (action_of step) +:+ "' completed (simulation)"))
       None None, m).
Proof.
  intros Hnot Hv.
  assert (Hno : forall n, n ∈ ["Bash"; "Read"; "Grep"; "Glob"; "Edit"; "Write"] ->
                          tool_is (step_tool step) n = false).
  { intros n Hn. unfold tool_is. destruct (step_tool step) as [t|] eqn:Ht; [|reflexivity].
    apply String.eqb_neq. intros ->. apply Hnot.
    apply list_elem_of_fmap. exists n. split; [reflexivity | exact Hn]. }
  unfold _execute_step, try_step, call_handler.
  rewrite !Hno by (repeat constructor). rewrite Hv. reflexivity.
Qed.

(** A [Bash] step is a success exactly when its command ends with exit
    code 0. *)
Theorem bash_succeeds_iff_exit_zero (step : Step) (params : gmap string string)
    (w : World H) :
  result_status (_execute_bash_step H step params w).1 = StepStatus.SUCCESS
  <-> exists stdout stderr,
        (subprocess_run H (bash_command step params) (Some (bash_timeout step)) w).1
        = Completed 0 stdout stderr.
Proof.
  unfold _execute_bash_step.
  destruct (subprocess_run H (bash_command step params) (Some (bash_timeout step)) w)
    as [[rc out err| |e] w']; cbn.
  - destruct (rc =? 0) eqn:Hrc.
    + apply Z.eqb_eq in Hrc. subst rc. split; [eauto | reflexivity].
    + apply Z.eqb_neq in Hrc. split; [discriminate|].
      intros (o & e & Heq). inversion Heq. congruence.
  - split; [discriminate | intros (o & e & Heq); discriminate].
  - split; [discriminate | intros (o & e' & Heq); discriminate].
Qed.

End ValidationFacts.

(** * Further properties of the step runner and of the phases *)

Section RunnerFacts.
Context (H : Host).

(** Running a list of steps is running its first part and then, if that
    part did not fail, the rest from where the first part ended. *)
Theorem steps_run_in_sequence (first later : list Step) (params : gmap string string) :
  forall m : Machine H,
    _execute_steps H (first ++ later) params m
    = match _execute_steps H first params m with
      | (Ok _, m') => _execute_steps H later params m'
      | (Raise e, m') => (Raise e, m')
      end.
Proof.
  induction first as [|step rest IH]; intros m; [reflexivity|].
  cbn [app _execute_steps].
  destruct (check_condition H step params) as [[]|e]; [apply IH | | reflexivity].
  destruct (_execute_step H step params m) as [result m1].
  case_bool_decide; [apply IH | reflexivity].
Qed.


Lemma _execute_steps_keeps (steps : list Step) (params : gmap string string) :
  forall (m m' : Machine H) (r : Res unit),
    _execute_steps H steps params m = (r, m') ->
    current_phase (m_state m') = current_phase (m_state m)
    /\ outputs H (m_state m') = outputs H (m_state m).
Proof.
  induction steps as [|step rest IH]; intros m m' r Hr; cbn [_execute_steps] in Hr.
  - inversion Hr; subst. split; reflexivity.
  - destruct (check_condition H step params) as [[]|e];
      [now apply IH in Hr | | inversion Hr; subst; split; reflexivity].
    destruct (_execute_step H step params m) as [result m1] eqn:Hs.
    apply _execute_step_frame in Hs as [Hst _].
    case_bool_decide.
    + apply IH in Hr as [Hp Ho]. cbn in Hp, Ho. rewrite Hst in Hp, Ho. now split.
    + inversion Hr; subst. cbn. rewrite Hst. split; reflexivity.
Qed.

Lemma attempt_loop_keeps (attempts : list Z) (max_attempts : Z) (phase : Phase)
    (steps : list Step) (params : gmap string string) :
  forall (m m' : Machine H) (r : Res unit),
    attempt_loop H attempts max_attempts phase steps params m = (r, m') ->
    current_phase (m_state m') = current_phase (m_state m)
    /\ outputs H (m_state m') = outputs H (m_state m).
Proof.
  induction attempts as [|attempt later IH]; intros m m' r Hr; cbn [attempt_loop] in Hr.
  - inversion Hr; subst. split; reflexivity.
  - destruct (_execute_steps H steps params m) as [[[]|e] m1] eqn:Hs;
      apply _execute_steps_keeps in Hs as [Hp Ho].
    + inversion Hr; subst. now split.
    + destruct (attempt =? max_attempts).
      * unfold _handle_failure_actions in Hr.
        destruct (phase_failure_actions phase); inversion Hr; subst; now split.
      * apply IH in Hr as [Hp' Ho']. split; congruence.
Qed.

(** A phase whose [max_attempts] is zero or negative is passed without
    an attempt: none of its steps runs and the workflow goes on with the
    next phase. *)
Theorem phase_without_attempts_is_passed (phase : Phase) (rest : list Phase)
    (params : gmap string string) (m : Machine H) (n : Z) :
  phase_max_attempts phase = Some n -> n <= 0 ->
  _execute_phases H (phase :: rest) params m
  = _execute_phases H rest params
      (set_current_phase H (default "Unnamed Phase" (phase_name phase)) m).
Proof.
  intros Hn Hle. cbn [_execute_phases]. rewrite Hn.
  change (default 1 (Some n)) with n.
  unfold range. replace (Z.to_nat (n + 1 - 1)) with O by lia. reflexivity.
Qed.



(** When a phase fails for good no later phase is started:
    [current_phase] is the phase that failed, and what follows it in the
    document is without effect. *)
Theorem failed_phase_stops_the_workflow (phases : list Phase)
    (params : gmap string string) :
  forall (m m' : Machine H) (exn : Exn),
    _execute_phases H phases params m = (Raise exn, m') ->
    exists (before : list Phase) (phase : Phase) (after : list Phase),
      phases = (before ++ phase :: after)%list
      /\ current_phase (m_state m') = Some (default "Unnamed Phase" (phase_name phase))
      /\ forall others : list Phase,
           _execute_phases H (before ++ phase :: others) params m = (Raise exn, m').
Proof.
  induction phases as [|phase rest IH]; intros m m' exn Hr; [discriminate|].
  cbn [_execute_phases] in Hr.
  destruct (attempt_loop H _ _ phase _ params _) as [[[]|e] m1] eqn:Hloop.
  - apply IH in Hr as (before & p & after & -> & Hp & Hothers).
    exists (phase :: before), p, after. split; [reflexivity|]. split; [exact Hp|].
    intros others. cbn [app _execute_phases]. rewrite Hloop. apply Hothers.
  - inversion Hr; subst e m1. exists [], phase, rest. split; [reflexivity|].
    split.
    + apply attempt_loop_keeps in Hloop as [Hp _]. exact Hp.
    + intros others. cbn [app _execute_phases]. rewrite Hloop. reflexivity.
Qed.

(** [execute] does not read the state an earlier run has left in the
    engine: a run that loads its definition replaces it by a new state,
    a run that does not load leaves it where it is. *)
Theorem execute_ignores_previous_state (name : string) (params : gmap string string)
    (e : Engine H) (previous : option (WorkflowState H)) :
  execute H name params {| state := previous; world := world e; trace := trace e |}
  = match load_workflow H name (world e) with
    | Ok _ => execute H name params e
    | Raise exn =>
        (Raise exn, {| state := previous; world := world e; trace := trace e |})
    end.
Proof.
  unfold execute. cbn.
  destruct (load_workflow H name (world e)); reflexivity.
Qed.

End RunnerFacts.

(** * Further properties of [execute] and of [main] *)

Section MainFacts.
Context (H : Host).

Lemma _execute_phases_outputs (phases : list Phase) (params : gmap string string) :
  forall (m m' : Machine H) (r : Res unit),
    _execute_phases H phases params m = (r, m') ->
    outputs H (m_state m') = outputs H (m_state m).
Proof.
  induction phases as [|phase rest IH]; intros m m' r Hr; cbn [_execute_phases] in Hr.
  - now inversion Hr.
  - destruct (attempt_loop H _ _ phase _ params _) as [[[]|e] m1] eqn:Hloop;
      apply attempt_loop_keeps in Hloop as [_ Ho]; cbn in Ho.
    + apply IH in Hr. congruence.
    + inversion Hr; subst. exact Ho.
Qed.

Lemma run_workflow_outputs (workflow : Workflow) (params : gmap string string)
    (m m' : Machine H) (r : Res unit) :
  run_workflow H workflow params m = (r, m') ->
  outputs H (m_state m') = outputs H (m_state m).
Proof.
  unfold run_workflow, _check_success_criteria. intros Hr.
  destruct (_validate_inputs _ params); [|now inversion Hr].
  destruct (wf_phases workflow) as [phases|].
  - destruct (_execute_phases H phases params m) as [r1 m1] eqn:Hp.
    apply _execute_phases_outputs in Hp.
    repeat case_match; simplify_eq; exact Hp.
  - destruct (wf_steps workflow) as [steps|]; [|now inversion Hr].
    destruct (_execute_steps H steps params m) as [r1 m1] eqn:Hp.
    apply _execute_steps_keeps in Hp as [_ Hp].
    repeat case_match; simplify_eq; exact Hp.
Qed.

(** The state that [execute] returns carries the name the workflow was
    looked up by, the clock readings taken before the first and after
    the last step, and an [outputs] mapping that nothing has written
    to. *)
Theorem returned_state_shape (name : string) (params : gmap string string)
    (e e' : Engine H) (st : WorkflowState H) :
  execute H name params e = (Ok st, e') ->
  state e' = Some st
  /\ workflow_name st = name
  /\ start_time st = Some (time_time H (world e))
  /\ end_time st = Some (time_time H (world e'))
  /\ outputs H st = ∅.
Proof.
  unfold execute. intros Hexec.
  destruct (load_workflow H name (world e)) as [workflow|]; [|discriminate].
  destruct (run_workflow H workflow params (started H name e)) as [[[]|exn] m'] eqn:Hrun;
    [|discriminate].
  inversion Hexec; subst st e'; clear Hexec. cbn.
  pose proof (run_workflow_outputs _ _ _ _ _ Hrun) as Ho.
  apply run_workflow_steady in Hrun as (Hn & _ & Hs & _ & _).
  cbn in Hn, Hs, Ho. rewrite Hn, Hs, Ho. repeat split.
Qed.

Lemma split_once_join (sep : ascii) (key value : string) :
  has_no sep key = true -> split_once sep (key +:+ String sep value) = Some (key, value).
Proof.
  unfold has_no. induction key as [|c key IH]; cbn; intros Hno.
  - now rewrite Ascii.eqb_refl.
  - apply andb_prop in Hno as [Hc Hno]. apply negb_true_iff in Hc.
    rewrite Hc, (IH Hno). reflexivity.
Qed.

Lemma split_once_none (sep : ascii) (s : string) :
  split_once sep s = None <-> has_no sep s = true.
Proof.
  unfold has_no. induction s as [|c s IH]; cbn; [split; reflexivity|].
  destruct (Ascii.eqb c sep); cbn; [split; discriminate|].
  destruct (split_once sep s) as [[k v]|].
  - split; [discriminate|]. intros Hs. apply IH in Hs. discriminate.
  - split; [|reflexivity]. intros _. now apply IH.
Qed.

(** A [--param] argument is cut at its first [=]: the key is what comes
    before it and has no [=], the value is all that follows and may have
    some; putting key, [=] and value together gives the argument back. *)
Theorem param_is_cut_at_first_equals (param key value : string) :
  split_once "=" param = Some (key, value) <->
  param = key +:+ "=" +:+ value /\ has_no "=" key = true.
Proof.
  change (key +:+ "=" +:+ value) with (key +:+ String "=" value).
  revert key. induction param as [|c s IH]; intros key; cbn [split_once].
  - split; [discriminate|]. intros [Heq _]. destruct key; discriminate.
  - destruct (Ascii.eqb c "=") eqn:Hc.
    + apply Ascii.eqb_eq in Hc. subst c. split.
      * intros Heq; inversion Heq; subst. split; reflexivity.
      * intros [Heq Hno]. destruct key as [|k key].
        -- cbn in Heq. inversion Heq; subst. reflexivity.
        -- cbn in Heq, Hno. inversion Heq; subst k. discriminate.
    + split.
      * destruct (split_once "=" s) as [[k v]|] eqn:Hs in |- *; [|discriminate].
        intros Heq; inversion Heq; subst. apply IH in Hs as [-> Hno].
        split; [reflexivity|]. unfold has_no in *. cbn. now rewrite Hc.
      * intros [Heq Hno]. destruct key as [|k key].
        -- cbn in Heq. inversion Heq; subst. discriminate.
        -- cbn in Heq. inversion Heq; subst k s. unfold has_no in Hno. cbn in Hno.
           apply andb_prop in Hno as [_ Hno].
           rewrite (split_once_join "=" key value Hno). reflexivity.
Qed.

Lemma parse_params_app (first later : list string) :
  forall params : gmap string string,
    parse_params (first ++ later) params
    = match parse_params first params with
      | Ok p => parse_params later p
      | Raise e => Raise e
      end.
Proof.
  induction first as [|a first IH]; intros params; [reflexivity|].
  cbn [app parse_params].
  destruct (split_once "=" a) as [[k v]|]; [apply IH | reflexivity].
Qed.

(** Of two [--param] arguments with the same key the later one wins: a
    further argument [key=value] sets [key] to [value] in the mapping
    made from the arguments before it. *)
Theorem later_param_wins (args : list string) (key value : string) :
  has_no "=" key = true ->
  parse_params (args ++ [key +:+ "=" +:+ value]) ∅
  = match parse_params args ∅ with
    | Ok p => Ok (<[key := value]> p)
    | Raise e => Raise e
    end.
Proof.
  intros Hno. rewrite parse_params_app.
  destruct (parse_params args ∅) as [p|e]; [|reflexivity].
  cbn [parse_params].
  change (key +:+ "=" +:+ value) with (key +:+ String "=" value).
  rewrite (split_once_join "=" key value Hno). reflexivity.
Qed.

(** The arguments are rejected, by the [ValueError] of the unpacking,
    exactly when one of them has no [=]. *)
Theorem params_without_equals_are_rejected (args : list string) :
  forall params : gmap string string,
    (exists exn, parse_params args params = Raise exn)
    <-> exists arg, arg ∈ args /\ has_no "=" arg = true.
Proof.
  induction args as [|a args IH]; intros params; cbn [parse_params].
  - split; [intros [? ?]; discriminate | intros (? & Hin & _); inversion Hin].
  - destruct (split_once "=" a) as [[k v]|] eqn:Hs.
    + rewrite IH. split.
      * intros (arg & Hin & Hno). exists arg. split; [now right | exact Hno].
      * intros (arg & Hin & Hno). apply elem_of_cons in Hin as [->|Hin].
        -- apply split_once_none in Hno. congruence.
        -- exists arg. now split.
    + split; [|eauto]. intros _. exists a. split; [left|]. now apply split_once_none.
Qed.


Lemma parse_params_malformed (args : list string) :
  forall params : gmap string string,
    existsb (has_no "=") args = true ->
    parse_params args params
    = Raise {| exn_class := ValueError;
               exn_str := "not enough values to unpack (expected 2, got 1)" |}.
Proof.
  induction args as [|a args IH]; intros params Hex; [discriminate|].
  cbn [existsb] in Hex. cbn [parse_params].
  destruct (split_once "=" a) as [[k v]|] eqn:Hs; [|reflexivity].
  apply IH. destruct (has_no "=" a) eqn:Hno; [|exact Hex].
  apply split_once_none in Hno. congruence.
Qed.

Lemma parse_params_well_formed (args : list string) :
  forall params : gmap string string,
    existsb (has_no "=") args = false ->
    exists parsed, parse_params args params = Ok parsed.
Proof.
  induction args as [|a args IH]; intros params Hex; [eexists; reflexivity|].
  cbn [existsb] in Hex. apply orb_false_iff in Hex as [Hno Hex].
  cbn [parse_params].
  destruct (split_once "=" a) as [[k v]|] eqn:Hs; [now apply IH|].
  apply split_once_none in Hs. congruence.
Qed.

(** [main] ends by the uncaught [ValueError] of the unpacking, before
    an engine is built, exactly when a [--param] argument has no [=].
    Otherwise it runs [execute] with the parsed parameters on a new
    engine and exits with status 0 when [execute] returns, the state
    being completed, and with status 1 when [execute] raises, the state
    being failed or, if the definition was not loaded, absent. *)
Theorem main_exit_status (args : Args) (w : World H) :
  if existsb (has_no "=") (default [] (args_param args)) then
    main H args w
    = (Raise {| exn_class := ValueError;
                exn_str := "not enough values to unpack (expected 2, got 1)" |}, None)
  else
    exists (params : gmap string string) (code : Z) (e' : Engine H),
      parse_params (default [] (args_param args)) ∅ = Ok params
      /\ main H args w = (Ok code, Some e')
      /\ e' = (execute H (args_workflow args) params (new_engine H w)).2
      /\ ((code = 0
           /\ exists st,
                (execute H (args_workflow args) params (new_engine H w)).1 = Ok st
                /\ state e' = Some st /\ status st = WorkflowStatus.COMPLETED)
          \/ (code = 1
              /\ (exists exn,
                    (execute H (args_workflow args) params (new_engine H w)).1
                    = Raise exn)
              /\ (state e' = None
                  \/ exists st, state e' = Some st
                                /\ status st = WorkflowStatus.FAILED))).
Proof.
  destruct (existsb (has_no "=") (default [] (args_param args))) eqn:Hex.
  - unfold main. rewrite (parse_params_malformed _ ∅ Hex). reflexivity.
  - destruct (parse_params_well_formed _ ∅ Hex) as (params & Hp).
    unfold main. rewrite Hp. exists params.
    unfold execute. cbn.
    destruct (load_workflow H (args_workflow args) w) as [workflow|exn].
    + destruct (run_workflow H workflow params _) as [[[]|exn] m'].
      * eexists 0, _. repeat split. left. split; [reflexivity|].
        eexists. repeat split.
      * eexists 1, _. repeat split. right. split; [reflexivity|].
        split; [eauto|]. right. eexists. split; reflexivity.
    + eexists 1, _. repeat split. right. split; [reflexivity|].
      split; [eauto|]. now left.
Qed.

End MainFacts.

(** * The further properties on the sample host *)

Lemma exit_code_rule_fails_other_tools_witness :
  result_status
    (_execute_step Sample.host
       {| step_action := Some "note"; step_name := None; step_tool := None;
          step_params := None; step_condition := None;
          step_validation := Some ["no_syntax_errors"; "exit_code_equals_0"] |}
       ∅ (started Sample.host "sample" (new_engine Sample.host 0%nat))).1
  = StepStatus.FAILED.
Proof.
  apply (exit_code_rule_fails_other_tools Sample.host _ ∅ _
           ["no_syntax_errors"; "exit_code_equals_0"]).
  - discriminate.
  - discriminate.
  - reflexivity.
  - right. left.
Defined.

Lemma violated_rule_replaces_result_witness :
  let step := Sample.shell_step "B" "exit 1" None (Some ["exit_code_equals_0"]) in
  let m := started Sample.host "sample" (new_engine Sample.host 0%nat) in
  _execute_step Sample.host step ∅ m
  = (mkResult StepStatus.FAILED None
       (Some ("Validation failed: exit code was " +:+ str_int 1 +:+ ", expected 0")) None,
     with_world Sample.host 0%nat (emit Sample.host (EvTool "Bash" (action_of step)) m)).
Proof.
  intros step m.
  apply (violated_rule_replaces_result Sample.host step ∅ m [] 1 "" "" 0%nat).
  - reflexivity.
  - reflexivity.
  - reflexivity.
  - discriminate.
Defined.

Lemma read_and_glob_need_params_witness :
  let step := {| step_action := Some "list"; step_name := None; step_tool := Some "Glob";
                 step_params := None; step_condition := None; step_validation := None |} in
  let m := started Sample.host "sample" (new_engine Sample.host 0%nat) in
  exists result m',
    _execute_step Sample.host step ∅ m = (result, m')
    /\ result = mkResult StepStatus.FAILED None (Some "'params'") None
    /\ m_world m' = m_world m
    /\ m_state m' = m_state m.
Proof.
  intros step m.
  apply (read_and_glob_need_params Sample.host step ∅ m).
  - right. reflexivity.
  - reflexivity.
Defined.

Lemma unknown_tool_is_simulated_witness :
  let step := {| step_action := None; step_name := Some "build"; step_tool := Some "bash";
                 step_params := None; step_condition := None; step_validation := None |} in
  let m := started Sample.host "sample" (new_engine Sample.host 0%nat) in
  _execute_step Sample.host step ∅ m
  = (mkResult StepStatus.SUCCESS
       (Some ("Action '" +:+ str_opt (action_of step) +:+ "' completed (simulation)"))
       None None, m).
Proof.
  intros step m.
  apply (unknown_tool_is_simulated Sample.host step ∅ m).
  - vm_compute. intros Hin.
    repeat (apply elem_of_cons in Hin as [Hin|Hin]; [discriminate|]).
    inversion Hin.
  - reflexivity.
Defined.


Lemma phase_without_attempts_is_passed_witness :
  let m := started Sample.host "sample" (new_engine Sample.host 0%nat) in
  _execute_phases Sample.host [Sample.flaky_phase 0] ∅ m
  = _execute_phases Sample.host [] ∅ (set_current_phase Sample.host "build" m).
Proof.
  intros m.
  apply (phase_without_attempts_is_passed Sample.host (Sample.flaky_phase 0) [] ∅ m 0).
  - reflexivity.
  - lia.
Defined.


Lemma failed_phase_stops_the_workflow_witness :
  let phases := [Sample.phase_of "first" None [Sample.shell_step "A" "true" None None];
                 Sample.phase_of "second" None [Sample.shell_step "B" "exit 1" None None];
                 Sample.phase_of "third" None [Sample.shell_step "C" "true" None None]] in
  let m := started Sample.host "sample" (new_engine Sample.host 0%nat) in
  exists (before : list Phase) (phase : Phase) (after : list Phase),
    phases = (before ++ phase :: after)%list
    /\ current_phase (m_state (_execute_phases Sample.host phases ∅ m).2)
       = Some (default "Unnamed Phase" (phase_name phase))
    /\ forall others : list Phase,
         _execute_phases Sample.host (before ++ phase :: others) ∅ m
         = (Raise {| exn_class := RuntimeError; exn_str := "Step failed: B - " |},
            (_execute_phases Sample.host phases ∅ m).2).
Proof.
  intros phases m.
  apply (failed_phase_stops_the_workflow Sample.host phases ∅ m).
  vm_compute. reflexivity.
Defined.

Lemma returned_state_shape_witness :
  let r := execute Sample.host "retry3" ∅ (new_engine Sample.host 0%nat) in
  exists st : WorkflowState Sample.host,
    state r.2 = Some st
    /\ workflow_name st = "retry3"
    /\ start_time st = Some 0%nat
    /\ end_time st = Some 3%nat
    /\ outputs Sample.host st = ∅.
Proof.
  intros r.
  pose (st := m_state (set_end_time Sample.host
                         (set_status Sample.host WorkflowStatus.COMPLETED
                            (run_workflow Sample.host
                               (Sample.document [] (Some [Sample.flaky_phase 3]) None) ∅
                               (started Sample.host "retry3"
                                  (new_engine Sample.host 0%nat))).2))).
  exists st.
  apply (returned_state_shape Sample.host "retry3" ∅ (new_engine Sample.host 0%nat) r.2 st).
  vm_compute. reflexivity.
Defined.

Lemma later_param_wins_witness :
  parse_params (["task=T-1"; "env=a=b"] ++ ["task" +:+ "=" +:+ "T-2"]) ∅
  = match parse_params ["task=T-1"; "env=a=b"] ∅ with
    | Ok p => Ok (<["task" := "T-2"]> p)
    | Raise e => Raise e
    end.
Proof.
  apply (later_param_wins ["task=T-1"; "env=a=b"] "task" "T-2").
  reflexivity.
Defined.
